(** * video_converter.py: image sequence to video conversion

    A shallow embedding of [create_video_from_images] and of the external
    collaborators it calls ([glob.glob], [os.path.join], [natsort.natsorted],
    [cv2.imread], [cv2.rotate], [cv2.VideoWriter]), followed by the
    properties of the conversion pipeline. *)

From Stdlib Require Import List String Ascii ZArith NArith Arith Bool Lia.
From Stdlib Require Import Permutation Sorted.
Import ListNotations.

Local Open Scope string_scope.
Local Open Scope list_scope.

(** ** Data model *)

(** A decoded raster, as [cv2.imread] returns it with its default flag: a
    [height] x [width] x [layers] array of channel values.  [pix r c k] is the
    value of channel [k] of the pixel in row [r], column [c]. *)
Record image : Type := mkImage {
  height : nat;
  width : nat;
  layers : nat;
  pix : nat -> nat -> nat -> Z
}.

(** [img.shape] *)
Definition shape (img : image) : nat * nat * nat :=
  (height img, width img, layers img).

(** The text printed on the console, one constructor per [print] call of the
    source, holding the values its f-string interpolates. *)
Inductive message : Type :=
| NoImagesFound (image_folder img_pattern : string)
| CouldNotRead (image_path : string)
| Processing (position total_images : nat)
| VideoSaved (output_video_path : string).

(** The calls the function makes on its environment, in program order. *)
Inductive event : Type :=
| GlobGlob (pathname : string)
| Imread (image_path : string)
| Print (m : message)
| VideoWriterNew (filename : string) (fourcc : Z) (fps : Z)
                 (frame_width frame_height : nat)
| VideoWriterWrite (frame : image)
| VideoWriterRelease.

(** The exceptions that can leave the function. *)
Inductive exn : Type :=
| Cv2Error
| AttributeError
| IndexError.

(** The file system as the function sees it during one run: what a glob
    pattern expands to, and what decoding a path gives ([None] when the file
    cannot be read as an image). *)
Record world : Type := mkWorld {
  glob_result : string -> list string;
  decode : string -> option image
}.

(** ** Console and writer effects: a trace with exceptions *)

Definition M (A : Type) : Type := (list event * (exn + A))%type.

Definition ret {A : Type} (a : A) : M A := ([], inr a).

Definition raise {A : Type} (e : exn) : M A := ([], inl e).

Definition emit (e : event) : M unit := ([e], inr tt).

Definition bind {A B : Type} (m : M A) (f : A -> M B) : M B :=
  match m with
  | (t, inl e) => (t, inl e)
  | (t, inr a) => (t ++ fst (f a), snd (f a))
  end.

Notation "x <- m ;; k" := (bind m (fun x => k))
  (at level 61, m at next level, right associativity).
Notation "m ;;; k" := (bind m (fun _ => k))
  (at level 61, right associativity).

Definition trace {A : Type} (m : M A) : list event := fst m.

Definition outcome {A : Type} (m : M A) : exn + A := snd m.

(** [for x in l: body(x)] *)
Fixpoint for_each {A : Type} (body : A -> M unit) (l : list A) : M unit :=
  match l with
  | [] => ret tt
  | x :: l' => body x ;;; for_each body l'
  end.

(** [enumerate(l)] *)
Definition enumerate {A : Type} (l : list A) : list (nat * A) :=
  combine (seq 0 (List.length l)) l.

(** ** External collaborators *)

(** [os.path.join(a, b)] of posixpath. *)
Definition startswith_sep (s : string) : bool :=
  match s with
  | String c _ => Ascii.eqb c "/"
  | EmptyString => false
  end.

Fixpoint endswith_sep (s : string) : bool :=
  match s with
  | EmptyString => false
  | String c EmptyString => Ascii.eqb c "/"
  | String _ s' => endswith_sep s'
  end.

Definition os_path_join (a b : string) : string :=
  if startswith_sep b then b
  else if (String.eqb a "" || endswith_sep a)%bool then (a ++ b)%string
  else (a ++ "/" ++ b)%string.

(** [glob.glob(pathname)] *)
Definition glob_glob (w : world) (pathname : string) : M (list string) :=
  emit (GlobGlob pathname) ;;; ret (glob_result w pathname).

(** [cv2.imread(path)]: a decoded image, or [None]. *)
Definition cv2_imread (w : world) (path : string) : M (option image) :=
  emit (Imread path) ;;; ret (decode w path).

(** The array [cv2.rotate(src, cv2.ROTATE_90_COUNTERCLOCKWISE)] computes: the
    axes are swapped and the last column of [src] becomes the first row. *)
Definition rotate_90_counterclockwise (src : image) : image :=
  {| height := width src;
     width := height src;
     layers := layers src;
     pix := fun r c k => pix src c (width src - 1 - r) k |}.

(** [cv2.rotate(src, cv2.ROTATE_90_COUNTERCLOCKWISE)]; [src] may be [None],
    which the binding takes for an empty array: the call then returns [None]
    and raises nothing. *)
Definition cv2_rotate (src : option image) : option image :=
  match src with
  | None => None
  | Some img => Some (rotate_90_counterclockwise img)
  end.

(** [v.shape] on a value that may be [None]. *)
Definition get_shape (v : option image) : M (nat * nat * nat) :=
  match v with
  | None => raise AttributeError
  | Some img => ret (shape img)
  end.

(** [cv2.VideoWriter_fourcc(c1, c2, c3, c4)] *)
Definition VideoWriter_fourcc (c1 c2 c3 c4 : ascii) : Z :=
  let code c := Z.of_nat (nat_of_ascii c) in
  Z.lor (Z.lor (code c1) (Z.shiftl (code c2) 8))
        (Z.lor (Z.shiftl (code c3) 16) (Z.shiftl (code c4) 24)).

(** Whether a Python [int] converts to a C [double], as the binding of a
    [double] argument needs: the conversion rounds to the nearest double,
    ties to even, and fails when the result would be 2^1024 or more in
    absolute value, that is from 2^1024 - 2^970 on. *)
Definition fits_c_double (n : Z) : bool :=
  (Z.abs n <? 2 ^ 1024 - 2 ^ 970)%Z.

(** [cv2.VideoWriter(filename, fourcc, fps, (width, height))]: the binding
    raises [cv2.error] when [fps] does not convert to a [double]; otherwise
    the writer object is constructed (whether it could open its file is not
    reported by an exception). *)
Definition cv2_VideoWriter (filename : string) (fourcc fps : Z)
    (frame_width frame_height : nat) : M unit :=
  if fits_c_double fps
  then emit (VideoWriterNew filename fourcc fps frame_width frame_height)
  else raise Cv2Error.

(** *** natsort.natsorted, default algorithm

    The key of a string is the sequence of its maximal runs of decimal digits
    (as integers) and of other characters (as strings), with an empty string
    put in front when the string starts with a digit; keys compare as Python
    tuples; the sort is stable.  Strings are sequences of bytes here, which is
    what natsort does on names made of ASCII characters. *)

Inductive chunk : Type :=
| CStr (s : string)
| CNum (n : N).

Definition is_digit (c : ascii) : bool :=
  let n := nat_of_ascii c in ((48 <=? n) && (n <=? 57))%nat%bool.

(** Maximal runs of digits and of non-digits, each with its kind. *)
Fixpoint runs (s : string) : list (bool * string) :=
  match s with
  | EmptyString => []
  | String c s' =>
      match runs s' with
      | (d, t) :: rest =>
          if Bool.eqb (is_digit c) d then (d, String c t) :: rest
          else (is_digit c, String c EmptyString) :: (d, t) :: rest
      | [] => [(is_digit c, String c EmptyString)]
      end
  end.

(** [int(s)] on a run of decimal digits. *)
Fixpoint int_of_digits (acc : N) (s : string) : N :=
  match s with
  | EmptyString => acc
  | String c s' =>
      int_of_digits (acc * 10 + (N_of_ascii c - 48))%N s'
  end.

Definition chunk_of_run (r : bool * string) : chunk :=
  if fst r then CNum (int_of_digits 0%N (snd r)) else CStr (snd r).

Definition natsort_key (s : string) : list chunk :=
  match map chunk_of_run (runs s) with
  | CNum n :: rest => CStr "" :: CNum n :: rest
  | k => k
  end.

(** Comparison of two components found at the same position of two keys.
    Components of different kinds never meet (see [natsort_key_alternates]
    below); Python would raise [TypeError] there. *)
Definition chunk_compare (a b : chunk) : comparison :=
  match a, b with
  | CStr x, CStr y => String.compare x y
  | CNum x, CNum y => N.compare x y
  | CStr _, CNum _ => Lt
  | CNum _, CStr _ => Gt
  end.

(** Python's tuple comparison. *)
Fixpoint key_compare (k1 k2 : list chunk) : comparison :=
  match k1, k2 with
  | [], [] => Eq
  | [], _ :: _ => Lt
  | _ :: _, [] => Gt
  | a :: k1', b :: k2' =>
      match chunk_compare a b with
      | Eq => key_compare k1' k2'
      | c => c
      end
  end.

(** [natsort_key(x) <= natsort_key(y)] *)
Definition natural_leb (x y : string) : bool :=
  match key_compare (natsort_key x) (natsort_key y) with
  | Gt => false
  | _ => true
  end.

Definition natural_le (x y : string) : Prop := natural_leb x y = true.

Fixpoint insert_sorted (x : string) (l : list string) : list string :=
  match l with
  | [] => [x]
  | y :: l' => if natural_leb x y then x :: y :: l' else y :: insert_sorted x l'
  end.

(** [natsorted(l)]: a stable sort by [natsort_key]. *)
Fixpoint natsorted (l : list string) : list string :=
  match l with
  | [] => []
  | x :: l' => insert_sorted x (natsorted l')
  end.

(** ** The converter *)

Definition default_fps : Z := 30.
Definition default_img_pattern : string := "*.png".
Definition default_rotate : bool := true.

(** The body of the loop [for i, image_path in enumerate(image_paths)].
    [out.write] is reached with an image only ([img] is not [None] after the
    test, and [cv2.rotate] of an image is an image); on [None] the binding
    would raise [cv2.error]. *)
Definition loop_body (w : world) (rotate : bool) (total_images : nat)
    (it : nat * string) : M unit :=
  let '(i, image_path) := it in
  img <- cv2_imread w image_path ;;
  match img with
  | None => emit (Print (CouldNotRead image_path))
  | Some _ =>
      let img := if rotate then cv2_rotate img else img in
      match img with
      | None => raise Cv2Error
      | Some frame =>
          emit (VideoWriterWrite frame) ;;;
          if (((i + 1) mod 10 =? 0) || (i + 1 =? total_images))%nat%bool
          then emit (Print (Processing (i + 1) total_images))
          else ret tt
      end
  end.

(** [create_video_from_images(image_folder, output_video_path, fps,
    img_pattern, rotate)] with every argument given. *)
Definition create_video_from_images (w : world)
    (image_folder output_video_path : string) (fps : Z)
    (img_pattern : string) (rotate : bool) : M unit :=
  image_paths <- glob_glob w (os_path_join image_folder img_pattern) ;;
  match image_paths with
  | [] => emit (Print (NoImagesFound image_folder img_pattern))
  | _ :: _ =>
      let image_paths := natsorted image_paths in
      path0 <- match image_paths with
               | p :: _ => ret p
               | [] => raise IndexError
               end ;;
      first_image <- cv2_imread w path0 ;;
      let first_image :=
        if rotate then cv2_rotate first_image else first_image in
      hwl <- get_shape first_image ;;
      let '(height, width, _) := hwl in
      let fourcc := VideoWriter_fourcc "m" "p" "4" "v" in
      cv2_VideoWriter output_video_path fourcc fps width height ;;;
      let total_images := List.length image_paths in
      for_each (loop_body w rotate total_images) (enumerate image_paths) ;;;
      emit VideoWriterRelease ;;;
      emit (Print (VideoSaved output_video_path))
  end.

(** A call that may leave out the keyword arguments: an omitted argument takes
    the default of the [def] line. *)
Definition call_create_video_from_images (w : world)
    (image_folder output_video_path : string) (fps : option Z)
    (img_pattern : option string) (rotate : option bool) : M unit :=
  create_video_from_images w image_folder output_video_path
    (match fps with Some f => f | None => default_fps end)
    (match img_pattern with Some p => p | None => default_img_pattern end)
    (match rotate with Some r => r | None => default_rotate end).

(** What [parser.parse_args()] returns: an option that was not given on the
    command line is [None] here and takes the default of its
    [add_argument]. *)
Record cli_args : Type := mkArgs {
  arg_input : string;
  arg_output : string;
  arg_fps : option Z;
  arg_pattern : option string;
  arg_no_rotate : bool
}.

(** [main()] after the command line has been parsed. *)
Definition main (w : world) (args : cli_args) : M unit :=
  create_video_from_images w (arg_input args) (arg_output args)
    (match arg_fps args with Some f => f | None => 30%Z end)
    (match arg_pattern args with Some p => p | None => "*.png" end)
    (negb (arg_no_rotate args)).

(** The files the pattern matches, as [glob.glob] lists them. *)
Definition matched (w : world) (image_folder img_pattern : string)
    : list string :=
  glob_result w (os_path_join image_folder img_pattern).

(** The codec identifier of the source, the four characters of mp4v. *)
Definition mp4v : Z := VideoWriter_fourcc "m" "p" "4" "v".

(** ** Observations on a trace *)

Definition frames_written (t : list event) : list image :=
  flat_map (fun e => match e with VideoWriterWrite f => [f] | _ => [] end) t.

Definition files_read (t : list event) : list string :=
  flat_map (fun e => match e with Imread p => [p] | _ => [] end) t.

Definition messages (t : list event) : list message :=
  flat_map (fun e => match e with Print m => [m] | _ => [] end) t.

Definition writers_created (t : list event) : list (string * Z * Z * nat * nat) :=
  flat_map (fun e => match e with
                     | VideoWriterNew f c r w h => [(f, c, r, w, h)]
                     | _ => []
                     end) t.


Definition is_progress (m : message) : bool :=
  match m with Processing _ _ => true | _ => false end.

Definition is_warning (m : message) : bool :=
  match m with CouldNotRead _ => true | _ => false end.

(** What the rotation switch does to a decoded frame. *)
Definition apply_rotate (rotate : bool) (a : image) : image :=
  if rotate then rotate_90_counterclockwise a else a.

(** The images the files of [l] decode to, in the order of [l]; a file that
    does not decode gives none. *)
Definition decoded_images (w : world) (l : list string) : list image :=
  flat_map (fun p => match decode w p with Some a => [a] | None => [] end) l.

(** The files of [l] that do not decode, in the order of [l]. *)
Definition undecodable (w : world) (l : list string) : list string :=
  filter (fun p => match decode w p with Some _ => false | None => true end) l.

(** The progress test of the loop, on the 1-based position. *)
Definition progress_due (total_images position : nat) : bool :=
  ((position mod 10 =? 0) || (position =? total_images))%nat%bool.

(** The events of one iteration of the loop. *)
Definition iteration_events (w : world) (rotate : bool) (total_images : nat)
    (it : nat * string) : list event :=
  Imread (snd it) ::
  match decode w (snd it) with
  | None => [Print (CouldNotRead (snd it))]
  | Some a =>
      VideoWriterWrite (apply_rotate rotate a) ::
      (if progress_due total_images (fst it + 1)
       then [Print (Processing (fst it + 1) total_images)] else [])
  end.

(** *** Shape of the keys *)

(** Every character of [s] is a digit ([kind = true]) or none is
    ([kind = false]). *)
Fixpoint all_kind (kind : bool) (s : string) : bool :=
  match s with
  | EmptyString => true
  | String c s' => Bool.eqb (is_digit c) kind && all_kind kind s'
  end.

(** [s] starts with a character of the given kind. *)
Definition starts_with_kind (kind : bool) (s : string) : bool :=
  match s with
  | EmptyString => false
  | String c _ => Bool.eqb (is_digit c) kind
  end.

(** The kinds of a list of runs alternate, starting with [first]. *)
Fixpoint kinds_alternate (first : bool) (l : list (bool * string)) : bool :=
  match l with
  | [] => true
  | (d, _) :: rest => Bool.eqb d first && kinds_alternate (negb first) rest
  end.

(** The components of a key alternate between strings and numbers. *)
Fixpoint alternates (expect_num : bool) (k : list chunk) : bool :=
  match k with
  | [] => true
  | CStr _ :: k' => negb expect_num && alternates true k'
  | CNum _ :: k' => expect_num && alternates false k'
  end.

(** Python's own comparison of two keys: comparing a string with a number
    raises [TypeError], here [None]. *)
Fixpoint tuple_compare (k1 k2 : list chunk) : option comparison :=
  match k1, k2 with
  | [], [] => Some Eq
  | [], _ :: _ => Some Lt
  | _ :: _, [] => Some Gt
  | CStr x :: k1', CStr y :: k2' =>
      match String.compare x y with
      | Eq => tuple_compare k1' k2'
      | c => Some c
      end
  | CNum x :: k1', CNum y :: k2' =>
      match N.compare x y with
      | Eq => tuple_compare k1' k2'
      | c => Some c
      end
  | _, _ => None
  end.

(** ** Sample folders *)

(** A folder given by its listing, in the order [glob.glob] enumerates it,
    each file with what it decodes to; [pathname] is the one pattern that
    matches the listing. *)
Definition folder_world (pathname : string)
    (files : list (string * option image)) : world :=
  {| glob_result := fun q =>
       if String.eqb q pathname then map fst files else [];
     decode := fun p =>
       match find (fun f => String.eqb (fst f) p) files with
       | Some (_, v) => v
       | None => None
       end |}.

(** A 100 x 50 picture (width x height) and a 64 x 48 one. *)
Definition picture_100x50 : image :=
  {| height := 50; width := 100; layers := 3;
     pix := fun r c k => (Z.of_nat (r + 2 * c + k) mod 256)%Z |}.

Definition picture_64x48 : image :=
  {| height := 48; width := 64; layers := 3;
     pix := fun r c k => (Z.of_nat (3 * r + c + k) mod 256)%Z |}.

(** [a1.png] and [a2.png], both 100 x 50. *)
Definition two_pictures : world :=
  folder_world "frames/*.png"
    [("frames/a1.png", Some picture_100x50);
     ("frames/a2.png", Some picture_100x50)].

(** Three files, the middle one corrupt. *)
Definition middle_corrupt : world :=
  folder_world "frames/*.png"
    [("frames/a1.png", Some picture_100x50);
     ("frames/a2.png", None);
     ("frames/a3.png", Some picture_100x50)].

(** Two files, the first one in natural order corrupt. *)
Definition first_corrupt : world :=
  folder_world "frames/*.png"
    [("frames/a1.png", None);
     ("frames/a2.png", Some picture_100x50)].


(** Two pictures of different sizes. *)
Definition mixed_sizes : world :=
  folder_world "frames/*.png"
    [("frames/a1.png", Some picture_100x50);
     ("frames/a2.png", Some picture_64x48)].

(** A folder in which nothing matches. *)
Definition empty_folder : world := folder_world "frames/*.png" [].

(** [img1.png], [img2.png], [img10.png], enumerated in lexical order. *)
Definition numbered_pictures : world :=
  folder_world "frames/*.png"
    [("frames/img1.png", Some picture_100x50);
     ("frames/img10.png", Some picture_64x48);
     ("frames/img2.png", Some picture_100x50)].

(** ** Further observations *)



(** The patterns [glob.glob] was called with. *)
Definition glob_calls (t : list event) : list string :=
  flat_map (fun e => match e with GlobGlob q => [q] | _ => [] end) t.


(** The same call with the frame turned: a written frame is rotated and the
    writer's width and height are exchanged. *)
Definition turned (e : event) : event :=
  match e with
  | VideoWriterNew filename fourcc fps frame_width frame_height =>
      VideoWriterNew filename fourcc fps frame_height frame_width
  | VideoWriterWrite frame =>
      VideoWriterWrite (rotate_90_counterclockwise frame)
  | _ => e
  end.




(** Twelve pictures, all decodable. *)
Definition twelve_pictures : world :=
  folder_world "frames/*.png"
    (map (fun n => (("frames/f" ++ n ++ ".png")%string, Some picture_100x50))
       ["1"; "2"; "3"; "4"; "5"; "6"; "7"; "8"; "9"; "10"; "11"; "12"]).

(** The frames the video holds after a run, read off its trace.  The encoder
    keeps a frame handed to [write] when the writer has opened its file
    ([opened]) and the frame has the width and height the writer was created
    with; it drops any other frame without raising. *)
Definition same_size (frame_width frame_height : nat) (f : image) : bool :=
  ((width f =? frame_width) && (height f =? frame_height))%nat%bool.

Definition stream_frames (opened : bool) (t : list event) : list image :=
  match writers_created t with
  | (_, _, _, frame_width, frame_height) :: _ =>
      if opened
      then filter (same_size frame_width frame_height) (frames_written t)
      else []
  | [] => []
  end.

(** Names made of ASCII characters: on these the byte strings used here are
    the strings natsort sorts (it leaves them unchanged when it normalises,
    and their digits are the decimal digits). *)
Definition is_ascii_char (c : ascii) : bool := (nat_of_ascii c <? 128)%nat.

Fixpoint ascii_name (s : string) : bool :=
  match s with
  | EmptyString => true
  | String c s' => is_ascii_char c && ascii_name s'
  end.

Definition ascii_names (l : list string) : Prop :=
  Forall (fun s => ascii_name s = true) l.

(** The last character of [s] is a digit. *)
Fixpoint ends_with_digit (s : string) : bool :=
  match s with
  | EmptyString => false
  | String c EmptyString => is_digit c
  | String _ s' => ends_with_digit s'
  end.

(** ** The model on small inputs *)

Example os_path_join_plain : os_path_join "frames" "*.png" = "frames/*.png".
Proof. reflexivity. Qed.

Example os_path_join_trailing_sep :
  os_path_join "frames/" "*.png" = "frames/*.png".
Proof. reflexivity. Qed.

Example os_path_join_absolute : os_path_join "frames" "/tmp/*.png" = "/tmp/*.png".
Proof. reflexivity. Qed.

Example mp4v_code : mp4v = 0x7634706d%Z.
Proof. reflexivity. Qed.

Example natsort_key_img10 :
  natsort_key "frames/img10.png" = [CStr "frames/img"; CNum 10; CStr ".png"].
Proof. reflexivity. Qed.

Example natsort_key_leading_number :
  natsort_key "007.png" = [CStr ""; CNum 7; CStr ".png"].
Proof. reflexivity. Qed.

Example natsorted_numbers :
  natsorted ["10.png"; "2.png"; "1.png"] = ["1.png"; "2.png"; "10.png"].
Proof. reflexivity. Qed.

(** Names with equal keys keep the order of the listing. *)
Example natsorted_is_stable :
  natsorted ["a01.png"; "a1.png"] = ["a01.png"; "a1.png"] /\
  natsorted ["a1.png"; "a01.png"] = ["a1.png"; "a01.png"].
Proof. split; reflexivity. Qed.

Example rotation_moves_the_last_column_up :
  pix (rotate_90_counterclockwise picture_100x50) 0 0 0
  = pix picture_100x50 0 99 0.
Proof. reflexivity. Qed.

(** The scenario of the specification: [a1.png] and [a2.png], 100 x 50,
    10 frames per second, rotation on. *)
Example two_pictures_run :
  create_video_from_images two_pictures "frames" "out.mp4" 10 "*.png" true
  = ([GlobGlob "frames/*.png";
      Imread "frames/a1.png";
      VideoWriterNew "out.mp4" mp4v 10 50 100;
      Imread "frames/a1.png";
      VideoWriterWrite (rotate_90_counterclockwise picture_100x50);
      Imread "frames/a2.png";
      VideoWriterWrite (rotate_90_counterclockwise picture_100x50);
      Print (Processing 2 2);
      VideoWriterRelease;
      Print (VideoSaved "out.mp4")], inr tt).
Proof. reflexivity. Qed.

Example middle_corrupt_run :
  create_video_from_images middle_corrupt "frames" "out.mp4" 30 "*.png" false
  = ([GlobGlob "frames/*.png";
      Imread "frames/a1.png";
      VideoWriterNew "out.mp4" mp4v 30 100 50;
      Imread "frames/a1.png";
      VideoWriterWrite picture_100x50;
      Imread "frames/a2.png";
      Print (CouldNotRead "frames/a2.png");
      Imread "frames/a3.png";
      VideoWriterWrite picture_100x50;
      Print (Processing 3 3);
      VideoWriterRelease;
      Print (VideoSaved "out.mp4")], inr tt).
Proof. reflexivity. Qed.

Example first_corrupt_run :
  create_video_from_images first_corrupt "frames" "out.mp4" 30 "*.png" true
  = ([GlobGlob "frames/*.png"; Imread "frames/a1.png"], inl AttributeError).
Proof. reflexivity. Qed.

Example rate_too_large_run :
  create_video_from_images two_pictures "frames" "out.mp4" (2 ^ 1024) "*.png"
    true
  = ([GlobGlob "frames/*.png"; Imread "frames/a1.png"], inl Cv2Error).
Proof. reflexivity. Qed.

Example fits_c_double_bounds :
  fits_c_double 30 = true /\ fits_c_double 0 = true /\
  fits_c_double (-5) = true /\
  fits_c_double (2 ^ 1024 - 2 ^ 970 - 1) = true /\
  fits_c_double (2 ^ 1024 - 2 ^ 970) = false /\
  fits_c_double (- 2 ^ 1024) = false.
Proof. repeat split; reflexivity. Qed.

(** ** The loop *)

Section Loop.

Variable w : world.
Variable rotate : bool.
Variable total_images : nat.

Lemma loop_body_eq (it : nat * string) :
  loop_body w rotate total_images it
  = (iteration_events w rotate total_images it, inr tt).
Proof.
  destruct it as [i p]. unfold loop_body, iteration_events, progress_due.
  cbn. destruct (decode w p) as [a|]; [|reflexivity].
  destruct rotate; cbn;
    destruct ((_ =? 0)%nat || _)%bool; reflexivity.
Qed.

Lemma for_each_loop_body (l : list (nat * string)) :
  for_each (loop_body w rotate total_images) l
  = (flat_map (iteration_events w rotate total_images) l, inr tt).
Proof.
  induction l as [|it l IH]; [reflexivity|].
  cbn [for_each flat_map]. rewrite loop_body_eq, IH. reflexivity.
Qed.

End Loop.

(** ** The ways a run can go *)

Lemma insert_sorted_not_nil (x : string) (l : list string) :
  insert_sorted x l <> [].
Proof.
  destruct l as [|y l]; cbn; [discriminate|].
  destruct (natural_leb x y); discriminate.
Qed.

Lemma natsorted_nil_inv (l : list string) : natsorted l = [] -> l = [].
Proof.
  destruct l as [|x l]; [reflexivity|]. cbn. intros H.
  now apply insert_sorted_not_nil in H.
Qed.

Section Run.

Variable w : world.
Variables image_folder output_video_path : string.
Variable fps : Z.
Variable img_pattern : string.
Variable rotate : bool.

Let pathname := os_path_join image_folder img_pattern.
Let run := create_video_from_images w image_folder output_video_path fps
             img_pattern rotate.

Lemma run_no_match :
  glob_result w pathname = [] ->
  run = ([GlobGlob pathname; Print (NoImagesFound image_folder img_pattern)],
         inr tt).
Proof.
  intros H. unfold run, create_video_from_images, glob_glob.
  fold pathname. cbn. rewrite H. reflexivity.
Qed.

Lemma run_first_undecodable (p0 : string) (rest : list string) :
  natsorted (glob_result w pathname) = p0 :: rest ->
  decode w p0 = None ->
  run = ([GlobGlob pathname; Imread p0], inl AttributeError).
Proof.
  intros Hs Hd. unfold run, create_video_from_images, glob_glob.
  fold pathname. cbn.
  destruct (glob_result w pathname) as [|x l] eqn:Hg; [discriminate|].
  rewrite Hs. cbn. rewrite Hd. destruct rotate; reflexivity.
Qed.

Lemma run_rate_rejected (p0 : string) (rest : list string) (a0 : image) :
  natsorted (glob_result w pathname) = p0 :: rest ->
  decode w p0 = Some a0 ->
  fits_c_double fps = false ->
  run = ([GlobGlob pathname; Imread p0], inl Cv2Error).
Proof.
  intros Hs Hd Hf. unfold run, create_video_from_images, glob_glob.
  fold pathname. cbn.
  destruct (glob_result w pathname) as [|x l] eqn:Hg; [discriminate|].
  rewrite Hs. cbn -[enumerate for_each List.length]. rewrite Hd.
  unfold cv2_VideoWriter.
  destruct rotate; cbn -[enumerate for_each List.length];
    rewrite Hf; reflexivity.
Qed.

Lemma run_complete (p0 : string) (rest : list string) (a0 : image) :
  natsorted (glob_result w pathname) = p0 :: rest ->
  decode w p0 = Some a0 ->
  fits_c_double fps = true ->
  run = (GlobGlob pathname :: Imread p0 ::
         VideoWriterNew output_video_path (VideoWriter_fourcc "m" "p" "4" "v")
           fps (width (apply_rotate rotate a0))
           (height (apply_rotate rotate a0)) ::
         flat_map (iteration_events w rotate (List.length (p0 :: rest)))
           (enumerate (p0 :: rest))
         ++ [VideoWriterRelease; Print (VideoSaved output_video_path)],
         inr tt).
Proof.
  intros Hs Hd Hf.
  remember (flat_map _ (enumerate (p0 :: rest))) as evs eqn:Hevs.
  unfold run, create_video_from_images, glob_glob.
  fold pathname. cbn.
  destruct (glob_result w pathname) as [|x l] eqn:Hg; [discriminate|].
  rewrite Hs. cbn -[enumerate for_each List.length]. rewrite Hd.
  unfold cv2_VideoWriter.
  destruct rotate; cbn -[enumerate for_each List.length];
    rewrite Hf; cbn -[enumerate for_each List.length];
    rewrite for_each_loop_body; subst evs; reflexivity.
Qed.

End Run.

(** ** The natural order *)

Lemma ascii_compare_refl (a : ascii) : Ascii.compare a a = Eq.
Proof. unfold Ascii.compare. apply N.compare_refl. Qed.

Lemma ascii_compare_lt_trans (a b c : ascii) :
  Ascii.compare a b = Lt -> Ascii.compare b c = Lt -> Ascii.compare a c = Lt.
Proof.
  unfold Ascii.compare. rewrite !N.compare_lt_iff. apply N.lt_trans.
Qed.

Lemma string_compare_refl (s : string) : String.compare s s = Eq.
Proof.
  induction s as [|a s IH]; cbn; [reflexivity|].
  now rewrite ascii_compare_refl.
Qed.

Lemma string_compare_lt_trans (s1 s2 s3 : string) :
  String.compare s1 s2 = Lt -> String.compare s2 s3 = Lt ->
  String.compare s1 s3 = Lt.
Proof.
  revert s2 s3.
  induction s1 as [|a s1 IH]; intros [|b s2] [|c s3]; cbn;
    try discriminate; try reflexivity.
  destruct (Ascii.compare a b) eqn:Eab; try discriminate;
    destruct (Ascii.compare b c) eqn:Ebc; try discriminate.
  - apply Ascii.compare_eq_iff in Eab, Ebc. subst.
    rewrite ascii_compare_refl. apply IH.
  - apply Ascii.compare_eq_iff in Eab. subst. now rewrite Ebc.
  - apply Ascii.compare_eq_iff in Ebc. subst. now rewrite Eab.
  - now rewrite (ascii_compare_lt_trans _ _ _ Eab Ebc).
Qed.

Lemma chunk_compare_refl (a : chunk) : chunk_compare a a = Eq.
Proof.
  destruct a; cbn; [apply string_compare_refl | apply N.compare_refl].
Qed.

Lemma chunk_compare_eq (a b : chunk) : chunk_compare a b = Eq -> a = b.
Proof.
  destruct a, b; cbn; try discriminate; intros H.
  - now apply String.compare_eq_iff in H; subst.
  - now apply N.compare_eq_iff in H; subst.
Qed.

Lemma chunk_compare_antisym (a b : chunk) :
  chunk_compare a b = CompOpp (chunk_compare b a).
Proof.
  destruct a, b; cbn; try reflexivity.
  - apply String.compare_antisym.
  - apply N.compare_antisym.
Qed.

Lemma chunk_compare_lt_trans (a b c : chunk) :
  chunk_compare a b = Lt -> chunk_compare b c = Lt -> chunk_compare a c = Lt.
Proof.
  destruct a, b, c; cbn; try discriminate; try reflexivity.
  - apply string_compare_lt_trans.
  - rewrite !N.compare_lt_iff. apply N.lt_trans.
Qed.

Lemma key_compare_refl (k : list chunk) : key_compare k k = Eq.
Proof.
  induction k as [|a k IH]; cbn; [reflexivity|].
  now rewrite chunk_compare_refl.
Qed.

Lemma key_compare_eq (k1 k2 : list chunk) : key_compare k1 k2 = Eq -> k1 = k2.
Proof.
  revert k2. induction k1 as [|a k1 IH]; intros [|b k2]; cbn;
    try discriminate; [reflexivity|].
  destruct (chunk_compare a b) eqn:E; try discriminate.
  intros H. apply chunk_compare_eq in E. apply IH in H. now subst.
Qed.

Lemma key_compare_antisym (k1 k2 : list chunk) :
  key_compare k1 k2 = CompOpp (key_compare k2 k1).
Proof.
  revert k2. induction k1 as [|a k1 IH]; intros [|b k2]; cbn;
    try reflexivity.
  rewrite (chunk_compare_antisym a b).
  destruct (chunk_compare b a); cbn; [apply IH | reflexivity | reflexivity].
Qed.

Lemma key_compare_lt_trans (k1 k2 k3 : list chunk) :
  key_compare k1 k2 = Lt -> key_compare k2 k3 = Lt -> key_compare k1 k3 = Lt.
Proof.
  revert k2 k3.
  induction k1 as [|a k1 IH]; intros [|b k2] [|c k3]; cbn;
    try discriminate; try reflexivity.
  destruct (chunk_compare a b) eqn:Eab; try discriminate;
    destruct (chunk_compare b c) eqn:Ebc; try discriminate.
  - apply chunk_compare_eq in Eab, Ebc. subst.
    rewrite chunk_compare_refl. apply IH.
  - apply chunk_compare_eq in Eab. subst. now rewrite Ebc.
  - apply chunk_compare_eq in Ebc. subst. now rewrite Eab.
  - now rewrite (chunk_compare_lt_trans _ _ _ Eab Ebc).
Qed.

Lemma natural_leb_total (x y : string) :
  natural_leb x y = true \/ natural_leb y x = true.
Proof.
  unfold natural_leb.
  rewrite (key_compare_antisym (natsort_key y) (natsort_key x)).
  destruct (key_compare (natsort_key x) (natsort_key y)); cbn; auto.
Qed.

Lemma natural_le_refl (x : string) : natural_le x x.
Proof. unfold natural_le, natural_leb. now rewrite key_compare_refl. Qed.

Lemma natural_le_trans (x y z : string) :
  natural_le x y -> natural_le y z -> natural_le x z.
Proof.
  unfold natural_le, natural_leb.
  destruct (key_compare (natsort_key x) (natsort_key y)) eqn:Exy;
    try discriminate;
    destruct (key_compare (natsort_key y) (natsort_key z)) eqn:Eyz;
    try discriminate; intros _ _.
  - apply key_compare_eq in Exy. rewrite Exy, Eyz. reflexivity.
  - apply key_compare_eq in Exy. rewrite Exy, Eyz. reflexivity.
  - apply key_compare_eq in Eyz. rewrite <- Eyz, Exy. reflexivity.
  - now rewrite (key_compare_lt_trans _ _ _ Exy Eyz).
Qed.

(** ** [natsorted] sorts *)

Lemma insert_sorted_perm (x : string) (l : list string) :
  Permutation (insert_sorted x l) (x :: l).
Proof.
  induction l as [|y l IH]; cbn; [reflexivity|].
  destruct (natural_leb x y); [reflexivity|].
  rewrite IH. apply perm_swap.
Qed.

Lemma natsorted_perm (l : list string) : Permutation (natsorted l) l.
Proof.
  induction l as [|x l IH]; cbn; [reflexivity|].
  rewrite insert_sorted_perm. now constructor.
Qed.

Lemma natsorted_length (l : list string) :
  List.length (natsorted l) = List.length l.
Proof. apply Permutation_length, natsorted_perm. Qed.

Lemma insert_sorted_sorted (x : string) (l : list string) :
  StronglySorted natural_le l -> StronglySorted natural_le (insert_sorted x l).
Proof.
  induction 1 as [|y l Hl IH Hy]; cbn.
  - repeat constructor.
  - destruct (natural_leb x y) eqn:E.
    + constructor; [now constructor|].
      constructor; [exact E|].
      eapply Forall_impl; [|exact Hy].
      intros z Hz. eapply natural_le_trans; eassumption.
    + constructor; [exact IH|].
      eapply Permutation_Forall.
      * symmetry. apply insert_sorted_perm.
      * constructor; [|exact Hy].
        destruct (natural_leb_total x y) as [H|H]; [congruence|exact H].
Qed.

Lemma natsorted_sorted (l : list string) :
  StronglySorted natural_le (natsorted l).
Proof.
  induction l as [|x l IH]; cbn; [constructor|].
  now apply insert_sorted_sorted.
Qed.

(** ** Shape of the keys of [natsorted] *)

Lemma runs_cons_head (c : ascii) (s : string) :
  exists t rest, runs (String c s) = (is_digit c, t) :: rest.
Proof.
  cbn. destruct (runs s) as [|[d t] rest]; [now eauto|].
  destruct (Bool.eqb (is_digit c) d) eqn:E; [|now eauto].
  apply Bool.eqb_prop in E. subst d. eauto.
Qed.

Lemma runs_kinds_alternate (s : string) :
  match runs s with
  | [] => True
  | (d, _) :: _ => kinds_alternate d (runs s) = true
  end.
Proof.
  induction s as [|c s IH]; cbn; [exact I|].
  destruct (runs s) as [|[d t] rest]; cbn.
  - now rewrite Bool.eqb_reflx.
  - cbn in IH. rewrite Bool.eqb_reflx in IH. cbn in IH.
    destruct (Bool.eqb (is_digit c) d) eqn:E; cbn.
    + now rewrite Bool.eqb_reflx.
    + rewrite !Bool.eqb_reflx. cbn.
      destruct (is_digit c), d; try discriminate; cbn; exact IH.
Qed.

Lemma alternates_map_runs (first : bool) (l : list (bool * string)) :
  kinds_alternate first l = true ->
  alternates first (map chunk_of_run l) = true.
Proof.
  revert first. induction l as [|[d t] l IH]; intros first; cbn;
    [reflexivity|].
  intros H. apply andb_prop in H. destruct H as [Hd Hl].
  apply Bool.eqb_prop in Hd. subst d. apply IH in Hl.
  unfold chunk_of_run. cbn. destruct first; cbn in *; exact Hl.
Qed.

(** A key always starts with a string and then alternates between numbers
    and strings. *)
Lemma natsort_key_alternates (s : string) :
  alternates false (natsort_key s) = true.
Proof.
  unfold natsort_key. pose proof (runs_kinds_alternate s) as H.
  destruct (runs s) as [|[d t] rest] eqn:E; [reflexivity|].
  apply alternates_map_runs in H. cbn [map] in *.
  unfold chunk_of_run at 1 in H. unfold chunk_of_run at 1. cbn [fst snd] in *.
  destruct d; cbn in *; exact H.
Qed.

(** On keys of that shape Python's comparison never raises and is
    [key_compare]. *)
Lemma tuple_compare_alternates (expect_num : bool) (k1 k2 : list chunk) :
  alternates expect_num k1 = true -> alternates expect_num k2 = true ->
  tuple_compare k1 k2 = Some (key_compare k1 k2).
Proof.
  revert expect_num k2.
  induction k1 as [|a k1 IH]; intros e [|b k2]; cbn;
    try reflexivity; try (destruct a; reflexivity).
  destruct a, b, e; cbn; try discriminate; intros H1 H2.
  - destruct (String.compare s s0); try reflexivity. now apply (IH true).
  - destruct (N.compare n n0); try reflexivity. now apply (IH false).
Qed.

Lemma natsorted_never_raises (x y : string) :
  tuple_compare (natsort_key x) (natsort_key y)
  = Some (key_compare (natsort_key x) (natsort_key y)).
Proof.
  apply (tuple_compare_alternates false); apply natsort_key_alternates.
Qed.

(** ** Numbers inside names compare by value *)

Lemma runs_cons (c : ascii) (s : string) :
  runs (String c s)
  = match runs s with
    | (d, t) :: rest =>
        if Bool.eqb (is_digit c) d then (d, String c t) :: rest
        else (is_digit c, String c EmptyString) :: (d, t) :: rest
    | [] => [(is_digit c, String c EmptyString)]
    end.
Proof. reflexivity. Qed.

Lemma runs_app_run (kind : bool) (u s : string) :
  u <> "" -> all_kind kind u = true -> starts_with_kind kind s = false ->
  runs (u ++ s) = (kind, u) :: runs s.
Proof.
  intros Hne Hu Hs. induction u as [|c u IH]; [congruence|].
  cbn in Hu. apply andb_prop in Hu. destruct Hu as [Hc Hu].
  apply Bool.eqb_prop in Hc.
  destruct u as [|c' u].
  - cbn [append]. destruct s as [|c2 s2].
    + cbn. now rewrite Hc.
    + destruct (runs_cons_head c2 s2) as (t & rest & E).
      rewrite (runs_cons c (String c2 s2)), E. cbn in Hs. rewrite Hc.
      destruct kind, (is_digit c2); try discriminate; reflexivity.
  - specialize (IH ltac:(discriminate) Hu). cbn [append] in *.
    rewrite (runs_cons c (String c' (u ++ s))), IH.
    rewrite Hc, Bool.eqb_reflx. reflexivity.
Qed.

Lemma natsort_key_name_number (p d s : string) :
  all_kind false p = true -> all_kind true d = true -> d <> "" ->
  starts_with_kind true s = false ->
  natsort_key (p ++ d ++ s)
  = CStr p :: CNum (int_of_digits 0%N d) :: map chunk_of_run (runs s).
Proof.
  intros Hp Hd Hne Hs. unfold natsort_key.
  assert (Ed : runs (d ++ s) = (true, d) :: runs s)
    by now apply runs_app_run.
  destruct p as [|c p].
  - cbn [append]. rewrite Ed. reflexivity.
  - rewrite (runs_app_run false); try assumption; try discriminate.
    + rewrite Ed. reflexivity.
    + destruct d as [|c' d]; [congruence|]. cbn in *.
      apply andb_prop in Hd. destruct Hd as [Hc' _].
      apply Bool.eqb_prop in Hc'. now rewrite Hc'.
Qed.

Lemma numeric_value_decides (p d1 s1 d2 s2 : string) :
  all_kind false p = true ->
  all_kind true d1 = true -> d1 <> "" -> starts_with_kind true s1 = false ->
  all_kind true d2 = true -> d2 <> "" -> starts_with_kind true s2 = false ->
  (int_of_digits 0 d1 < int_of_digits 0 d2)%N ->
  natural_leb (p ++ d1 ++ s1) (p ++ d2 ++ s2) = true /\
  natural_leb (p ++ d2 ++ s2) (p ++ d1 ++ s1) = false.
Proof.
  intros Hp H1 N1 S1 H2 N2 S2 Hlt. unfold natural_leb.
  rewrite !natsort_key_name_number by assumption.
  cbn. rewrite string_compare_refl.
  rewrite (proj2 (N.compare_lt_iff _ _) Hlt).
  rewrite (proj2 (N.compare_gt_iff _ _) Hlt). split; reflexivity.
Qed.

(** ** Reading a trace *)

Lemma flat_map_flat_map {A B C : Type} (f : B -> list C) (g : A -> list B)
    (l : list A) :
  flat_map f (flat_map g l) = flat_map (fun x => flat_map f (g x)) l.
Proof.
  induction l as [|x l IH]; cbn; [reflexivity|].
  now rewrite flat_map_app, IH.
Qed.

Lemma frames_written_app (t1 t2 : list event) :
  frames_written (t1 ++ t2) = frames_written t1 ++ frames_written t2.
Proof. apply flat_map_app. Qed.

Lemma files_read_app (t1 t2 : list event) :
  files_read (t1 ++ t2) = files_read t1 ++ files_read t2.
Proof. apply flat_map_app. Qed.

Lemma messages_app (t1 t2 : list event) :
  messages (t1 ++ t2) = messages t1 ++ messages t2.
Proof. apply flat_map_app. Qed.

Lemma writers_created_app (t1 t2 : list event) :
  writers_created (t1 ++ t2) = writers_created t1 ++ writers_created t2.
Proof. apply flat_map_app. Qed.

Section Iterations.

Variable w : world.
Variable rotate : bool.
Variable total_images : nat.

Let events (k : nat) (l : list string) : list event :=
  flat_map (iteration_events w rotate total_images)
    (combine (seq k (List.length l)) l).

Lemma frames_written_iterations (k : nat) (l : list string) :
  frames_written (events k l) = map (apply_rotate rotate) (decoded_images w l).
Proof.
  unfold events. revert k.
  induction l as [|p l IH]; intros k; [reflexivity|].
  cbn [List.length seq combine flat_map].
  rewrite frames_written_app, IH. unfold decoded_images.
  cbn [flat_map]. rewrite map_app. f_equal.
  unfold iteration_events. cbn [fst snd].
  destruct (decode w p) as [a|]; [|reflexivity].
  cbn. destruct (progress_due total_images (k + 1)); reflexivity.
Qed.

Lemma files_read_iterations (k : nat) (l : list string) :
  files_read (events k l) = l.
Proof.
  unfold events. revert k.
  induction l as [|p l IH]; intros k; [reflexivity|].
  cbn [List.length seq combine flat_map].
  rewrite files_read_app, IH.
  unfold iteration_events. cbn [fst snd].
  destruct (decode w p) as [a|]; [|reflexivity].
  cbn. destruct (progress_due total_images (k + 1)); reflexivity.
Qed.

Lemma writers_created_iterations (k : nat) (l : list string) :
  writers_created (events k l) = [].
Proof.
  unfold events. revert k.
  induction l as [|p l IH]; intros k; [reflexivity|].
  cbn [List.length seq combine flat_map].
  rewrite writers_created_app, IH.
  unfold iteration_events. cbn [fst snd].
  destruct (decode w p) as [a|]; [|reflexivity].
  cbn. destruct (progress_due total_images (k + 1)); reflexivity.
Qed.


Lemma warnings_iterations (k : nat) (l : list string) :
  filter is_warning (messages (events k l)) = map CouldNotRead (undecodable w l).
Proof.
  unfold events. revert k.
  induction l as [|p l IH]; intros k; [reflexivity|].
  cbn [List.length seq combine flat_map].
  rewrite messages_app, filter_app, IH.
  unfold iteration_events, undecodable. cbn [fst snd filter].
  destruct (decode w p) as [a|]; [|reflexivity].
  cbn. destruct (progress_due total_images (k + 1)); reflexivity.
Qed.

Lemma progress_iterations (k : nat) (l : list string) :
  filter is_progress (messages (events k l))
  = map (fun it => Processing (fst it + 1) total_images)
      (filter (fun it =>
                 match decode w (snd it) with
                 | Some _ => progress_due total_images (fst it + 1)
                 | None => false
                 end)
         (combine (seq k (List.length l)) l)).
Proof.
  unfold events. revert k.
  induction l as [|p l IH]; intros k; [reflexivity|].
  cbn [List.length seq combine flat_map filter].
  rewrite messages_app, filter_app, IH.
  unfold iteration_events. cbn [fst snd].
  destruct (decode w p) as [a|]; [|reflexivity].
  cbn. destruct (progress_due total_images (k + 1)); reflexivity.
Qed.


End Iterations.

(** ** Whole runs *)

Lemma decoded_undecodable_length (w : world) (l : list string) :
  List.length (decoded_images w l) + List.length (undecodable w l)
  = List.length l.
Proof.
  unfold decoded_images, undecodable.
  induction l as [|p l IH]; cbn; [reflexivity|].
  destruct (decode w p); cbn; lia.
Qed.

Lemma decoded_images_perm_length (w : world) (l l' : list string) :
  Permutation l l' ->
  List.length (decoded_images w l) = List.length (decoded_images w l').
Proof.
  intros H. apply Permutation_length. unfold decoded_images.
  now apply Permutation_flat_map.
Qed.

Lemma undecodable_perm_length (w : world) (l l' : list string) :
  Permutation l l' ->
  List.length (undecodable w l) = List.length (undecodable w l').
Proof.
  intros H. pose proof (decoded_undecodable_length w l) as E1.
  pose proof (decoded_undecodable_length w l') as E2.
  pose proof (decoded_images_perm_length w l l' H).
  pose proof (Permutation_length H). lia.
Qed.

Section Observed.

Variable w : world.
Variables image_folder output_video_path : string.
Variable fps : Z.
Variable img_pattern : string.
Variable rotate : bool.

Let run := create_video_from_images w image_folder output_video_path fps
             img_pattern rotate.

(** The four ways a run can go: nothing matches; the first file does not
    decode; the writer rejects the rate; the run goes through. *)
Lemma run_cases :
  (matched w image_folder img_pattern = [] /\
   run = ([GlobGlob (os_path_join image_folder img_pattern);
           Print (NoImagesFound image_folder img_pattern)], inr tt)) \/
  (exists p0 rest,
     natsorted (matched w image_folder img_pattern) = p0 :: rest /\
     decode w p0 = None /\
     run = ([GlobGlob (os_path_join image_folder img_pattern); Imread p0],
            inl AttributeError)) \/
  (exists p0 rest a0,
     natsorted (matched w image_folder img_pattern) = p0 :: rest /\
     decode w p0 = Some a0 /\ fits_c_double fps = false /\
     run = ([GlobGlob (os_path_join image_folder img_pattern); Imread p0],
            inl Cv2Error)) \/
  (exists p0 rest a0,
     natsorted (matched w image_folder img_pattern) = p0 :: rest /\
     decode w p0 = Some a0 /\ fits_c_double fps = true /\
     run = (GlobGlob (os_path_join image_folder img_pattern) :: Imread p0 ::
            VideoWriterNew output_video_path mp4v fps
              (width (apply_rotate rotate a0))
              (height (apply_rotate rotate a0)) ::
            flat_map (iteration_events w rotate (List.length (p0 :: rest)))
              (enumerate (p0 :: rest))
            ++ [VideoWriterRelease; Print (VideoSaved output_video_path)],
            inr tt)).
Proof.
  unfold matched.
  destruct (natsorted (glob_result w (os_path_join image_folder img_pattern)))
    as [|p0 rest] eqn:Hs.
  - left. apply natsorted_nil_inv in Hs. split; [exact Hs|].
    now apply run_no_match.
  - right. destruct (decode w p0) as [a0|] eqn:Hd.
    + right. destruct (fits_c_double fps) eqn:Hf.
      * right. exists p0, rest, a0. repeat split; try assumption.
        now apply run_complete.
      * left. exists p0, rest, a0. repeat split; try assumption.
        now apply (run_rate_rejected _ _ _ _ _ _ p0 rest a0).
    + left. exists p0, rest. repeat split; try assumption.
      now apply (run_first_undecodable _ _ _ _ _ _ p0 rest).
Qed.

Section Complete.

Variable p0 : string.
Variable rest : list string.
Variable a0 : image.
Hypothesis Hsorted :
  natsorted (matched w image_folder img_pattern) = p0 :: rest.
Hypothesis Hfirst : decode w p0 = Some a0.
Hypothesis Hrate : fits_c_double fps = true.

Lemma frames_written_complete :
  frames_written (trace run)
  = map (apply_rotate rotate) (decoded_images w (p0 :: rest)).
Proof.
  unfold run.
  rewrite (run_complete _ _ _ _ _ _ p0 rest a0 Hsorted Hfirst Hrate).
  unfold trace. cbn [fst frames_written flat_map app].
  change (flat_map _ ?t) with (frames_written t).
  rewrite frames_written_app. unfold enumerate.
  rewrite frames_written_iterations. cbn. now rewrite app_nil_r.
Qed.

Lemma files_read_complete : files_read (trace run) = p0 :: p0 :: rest.
Proof.
  unfold run.
  rewrite (run_complete _ _ _ _ _ _ p0 rest a0 Hsorted Hfirst Hrate).
  unfold trace. cbn [fst files_read flat_map app].
  change (flat_map _ ?t) with (files_read t).
  rewrite files_read_app. unfold enumerate.
  rewrite files_read_iterations. cbn. now rewrite app_nil_r.
Qed.

Lemma writers_created_complete :
  writers_created (trace run)
  = [(output_video_path, mp4v, fps, width (apply_rotate rotate a0),
      height (apply_rotate rotate a0))].
Proof.
  unfold run.
  rewrite (run_complete _ _ _ _ _ _ p0 rest a0 Hsorted Hfirst Hrate).
  unfold trace. cbn [fst writers_created flat_map app].
  change (flat_map _ ?t) with (writers_created t).
  rewrite writers_created_app. unfold enumerate.
  rewrite writers_created_iterations. reflexivity.
Qed.

Lemma warnings_complete :
  filter is_warning (messages (trace run))
  = map CouldNotRead (undecodable w (p0 :: rest)).
Proof.
  unfold run.
  rewrite (run_complete _ _ _ _ _ _ p0 rest a0 Hsorted Hfirst Hrate).
  unfold trace. cbn [fst messages flat_map app].
  change (flat_map _ ?t) with (messages t).
  rewrite messages_app, filter_app. unfold enumerate.
  rewrite warnings_iterations. cbn. now rewrite app_nil_r.
Qed.

Lemma progress_complete :
  filter is_progress (messages (trace run))
  = map (fun it => Processing (fst it + 1) (List.length (p0 :: rest)))
      (filter (fun it =>
                 match decode w (snd it) with
                 | Some _ => progress_due (List.length (p0 :: rest)) (fst it + 1)
                 | None => false
                 end)
         (enumerate (p0 :: rest))).
Proof.
  unfold run.
  rewrite (run_complete _ _ _ _ _ _ p0 rest a0 Hsorted Hfirst Hrate).
  unfold trace. cbn [fst messages flat_map app].
  change (flat_map _ ?t) with (messages t).
  rewrite messages_app, filter_app. unfold enumerate.
  rewrite progress_iterations. cbn [messages flat_map filter app is_progress].
  now rewrite app_nil_r.
Qed.

End Complete.

End Observed.

(** ** Frame count and skipped files *)

Lemma same_size_apply_rotate (rotate : bool) (a0 a : image) :
  width a = width a0 -> height a = height a0 ->
  same_size (width (apply_rotate rotate a0)) (height (apply_rotate rotate a0))
    (apply_rotate rotate a) = true.
Proof.
  intros Hw Hh. unfold same_size. destruct rotate; cbn;
    rewrite Hw, Hh, !Nat.eqb_refl; reflexivity.
Qed.

Lemma filter_all {A : Type} (f : A -> bool) (l : list A) :
  Forall (fun x => f x = true) l -> filter f l = l.
Proof.
  induction 1 as [|x l Hx _ IH]; cbn; [reflexivity|]. now rewrite Hx, IH.
Qed.

(** C1, as stated, fails.  With two matched files of which the first in
    natural order is corrupt and the second is valid, the run stops with
    [AttributeError] before the loop: no frame is written although one
    matched file decodes.  With two valid files of different sizes, both
    frames are handed to the writer but the video keeps only the one that
    has its size: one frame for two matched files that decode.  And a writer
    that could not open its file keeps no frame at all. *)
Lemma frame_count_can_fall_short :
  (matched first_corrupt "frames" "*.png" <> [] /\
   outcome (create_video_from_images first_corrupt "frames" "out.mp4" 30
              "*.png" true) = inl AttributeError /\
   frames_written
     (trace (create_video_from_images first_corrupt "frames" "out.mp4" 30
               "*.png" true)) = [] /\
   stream_frames true
     (trace (create_video_from_images first_corrupt "frames" "out.mp4" 30
               "*.png" true)) = [] /\
   List.length
     (decoded_images first_corrupt (matched first_corrupt "frames" "*.png"))
   = 1) /\
  (outcome (create_video_from_images mixed_sizes "frames" "out.mp4" 30
              "*.png" false) = inr tt /\
   frames_written
     (trace (create_video_from_images mixed_sizes "frames" "out.mp4" 30
               "*.png" false)) = [picture_100x50; picture_64x48] /\
   stream_frames true
     (trace (create_video_from_images mixed_sizes "frames" "out.mp4" 30
               "*.png" false)) = [picture_100x50] /\
   List.length
     (decoded_images mixed_sizes (matched mixed_sizes "frames" "*.png"))
   = 2) /\
  (outcome (create_video_from_images two_pictures "frames" "out.mp4" 30
              "*.png" false) = inr tt /\
   stream_frames false
     (trace (create_video_from_images two_pictures "frames" "out.mp4" 30
               "*.png" false)) = [] /\
   List.length
     (decoded_images two_pictures (matched two_pictures "frames" "*.png"))
   = 2).
Proof.
  split; [|split].
  - split; [discriminate|]. repeat split.
  - repeat split.
  - repeat split.
Qed.

(** C1, amended: take a run in which at least one file matches and the
    first file in natural-sort order decodes (names in ASCII, a rate the
    writer accepts).  The run returns normally; the frames handed to the
    writer are exactly the decoded matched files in sorted order (each
    rotated when rotation is on, nothing substituted), one per matched file
    that decodes; the warnings printed are exactly one per undecodable file,
    naming it, in order; and every matched file is still read, whichever
    files failed before it.  When moreover every matched file that decodes
    has the width and height of the first and the writer has opened its
    file, the video holds all these frames, so the number of frames written
    to the output video is the number of matched files that decode, one
    less for each file that does not. *)
Theorem frames_written_are_the_decodable_files
    (w : world) (image_folder output_video_path : string) (fps : Z)
    (img_pattern : string) (rotate : bool)
    (p0 : string) (rest : list string) (a0 : image) :
  ascii_names (matched w image_folder img_pattern) ->
  fits_c_double fps = true ->
  natsorted (matched w image_folder img_pattern) = p0 :: rest ->
  decode w p0 = Some a0 ->
  let r := create_video_from_images w image_folder output_video_path fps
             img_pattern rotate in
  outcome r = inr tt /\
  frames_written (trace r)
  = map (apply_rotate rotate) (decoded_images w (p0 :: rest)) /\
  List.length (frames_written (trace r))
  = List.length (decoded_images w (matched w image_folder img_pattern)) /\
  filter is_warning (messages (trace r))
  = map CouldNotRead (undecodable w (p0 :: rest)) /\
  files_read (trace r) = p0 :: p0 :: rest /\
  (Forall (fun a => width a = width a0 /\ height a = height a0)
     (decoded_images w (p0 :: rest)) ->
   stream_frames true (trace r) = frames_written (trace r) /\
   List.length (stream_frames true (trace r))
   = List.length (decoded_images w (matched w image_folder img_pattern)) /\
   List.length (stream_frames true (trace r))
   + List.length (undecodable w (matched w image_folder img_pattern))
   = List.length (matched w image_folder img_pattern)).
Proof.
  intros _ Hf Hs Hd r.
  assert (Hfr := frames_written_complete w image_folder output_video_path fps
                   img_pattern rotate p0 rest a0 Hs Hd Hf).
  assert (Hwr := writers_created_complete w image_folder output_video_path
                   fps img_pattern rotate p0 rest a0 Hs Hd Hf).
  fold r in Hfr, Hwr.
  assert (Hp : Permutation (p0 :: rest) (matched w image_folder img_pattern))
    by (rewrite <- Hs; apply natsorted_perm).
  assert (Hlen : List.length (frames_written (trace r))
                 = List.length
                     (decoded_images w (matched w image_folder img_pattern))).
  { rewrite Hfr, length_map. now apply decoded_images_perm_length. }
  split.
  { unfold r.
    now rewrite (run_complete w image_folder output_video_path fps
                   img_pattern rotate p0 rest a0 Hs Hd Hf). }
  split; [exact Hfr|]. split; [exact Hlen|]. split.
  { now apply (warnings_complete w image_folder output_video_path fps
                 img_pattern rotate p0 rest a0). }
  split.
  { now apply (files_read_complete w image_folder output_video_path fps
                 img_pattern rotate p0 rest a0). }
  intros Hall.
  assert (Hst : stream_frames true (trace r) = frames_written (trace r)).
  { unfold stream_frames. rewrite Hwr. apply filter_all.
    rewrite Hfr. apply Forall_map.
    eapply Forall_impl; [|exact Hall].
    intros a [Hw Hh]. now apply same_size_apply_rotate. }
  split; [exact Hst|]. rewrite Hst. split; [exact Hlen|].
  rewrite Hlen. apply decoded_undecodable_length.
Qed.

(** The scenario of the specification: one corrupt file among three gives
    exactly two frames in the video and one warning, which names the corrupt
    file. *)
Lemma frames_written_are_the_decodable_files_witness :
  ascii_names (matched middle_corrupt "frames" "*.png") /\
  fits_c_double 30 = true /\
  natsorted (matched middle_corrupt "frames" "*.png")
  = "frames/a1.png" :: ["frames/a2.png"; "frames/a3.png"] /\
  decode middle_corrupt "frames/a1.png" = Some picture_100x50 /\
  List.length
    (stream_frames true
       (trace (create_video_from_images middle_corrupt "frames" "out.mp4" 30
                 "*.png" true))) = 2 /\
  filter is_warning
    (messages
       (trace (create_video_from_images middle_corrupt "frames" "out.mp4" 30
                 "*.png" true)))
  = [CouldNotRead "frames/a2.png"].
Proof.
  assert (Ha : ascii_names (matched middle_corrupt "frames" "*.png"))
    by (repeat constructor).
  split; [exact Ha|]. split; [reflexivity|].
  split; [reflexivity|]. split; [reflexivity|].
  destruct (frames_written_are_the_decodable_files middle_corrupt "frames"
              "out.mp4" 30 "*.png" true "frames/a1.png"
              ["frames/a2.png"; "frames/a3.png"] picture_100x50
              Ha eq_refl eq_refl eq_refl) as (_ & _ & _ & Hw & _ & Hst).
  split.
  - destruct Hst as (_ & Hn & _); [repeat constructor|].
    rewrite Hn. reflexivity.
  - rewrite Hw. reflexivity.
Defined.

(** ** No match *)

(** C2: when no file matches, the run prints the "no images found" message
    and returns at once: the trace is the glob call and that message, no
    writer is created and nothing is written.  It is the only early return: a
    run returns normally without reaching the completion message exactly when
    no file matches. *)
Theorem no_match_is_the_only_early_return
    (w : world) (image_folder output_video_path : string) (fps : Z)
    (img_pattern : string) (rotate : bool) :
  let r := create_video_from_images w image_folder output_video_path fps
             img_pattern rotate in
  (matched w image_folder img_pattern = [] ->
   r = ([GlobGlob (os_path_join image_folder img_pattern);
         Print (NoImagesFound image_folder img_pattern)], inr tt) /\
   writers_created (trace r) = [] /\
   frames_written (trace r) = []) /\
  (outcome r = inr tt /\
   ~ In (Print (VideoSaved output_video_path)) (trace r)
   <-> matched w image_folder img_pattern = []).
Proof.
  intros r.
  destruct (run_cases w image_folder output_video_path fps img_pattern rotate)
    as [[Hm Hr] | [(p0 & rest & Hs & Hd & Hr)
         | [(p0 & rest & a0 & Hs & Hd & Hf & Hr)
           | (p0 & rest & a0 & Hs & Hd & Hf & Hr)]]];
    fold r in Hr.
  - split.
    + intros _. rewrite Hr. repeat split.
    + split; [intros _; exact Hm|]. intros _. rewrite Hr. split; [reflexivity|].
      cbn. intros [H|[H|[]]]; discriminate.
  - assert (Hne : matched w image_folder img_pattern <> []).
    { intros E. rewrite E in Hs. discriminate. }
    split; [intros E; contradiction|].
    split; [|intros E; contradiction].
    intros [Ho _]. rewrite Hr in Ho. discriminate.
  - assert (Hne : matched w image_folder img_pattern <> []).
    { intros E. rewrite E in Hs. discriminate. }
    split; [intros E; contradiction|].
    split; [|intros E; contradiction].
    intros [Ho _]. rewrite Hr in Ho. discriminate.
  - assert (Hne : matched w image_folder img_pattern <> []).
    { intros E. rewrite E in Hs. discriminate. }
    split; [intros E; contradiction|].
    split; [|intros E; contradiction].
    intros [_ Hn]. exfalso. apply Hn. rewrite Hr. unfold trace. cbn [fst].
    do 3 right. apply in_or_app. right. right. left. reflexivity.
Qed.

(** An empty folder: the message is printed and no writer is created. *)
Lemma no_match_is_the_only_early_return_witness :
  matched empty_folder "frames" "*.png" = [] /\
  create_video_from_images empty_folder "frames" "out.mp4" 30 "*.png" true
  = ([GlobGlob "frames/*.png"; Print (NoImagesFound "frames" "*.png")],
     inr tt) /\
  writers_created
    (trace (create_video_from_images empty_folder "frames" "out.mp4" 30
              "*.png" true)) = [].
Proof.
  split; [reflexivity|].
  destruct (no_match_is_the_only_early_return empty_folder "frames" "out.mp4"
              30 "*.png" true) as [H _].
  destruct (H eq_refl) as (Hr & Hw & _).
  split; [exact Hr | exact Hw].
Defined.

(** ** Natural order of processing *)

Lemma permutation_of_three {A : Type} (a b c : A) (l : list A) :
  Permutation l [a; b; c] ->
  l = [a; b; c] \/ l = [a; c; b] \/ l = [b; a; c] \/
  l = [b; c; a] \/ l = [c; a; b] \/ l = [c; b; a].
Proof.
  intros H.
  destruct (Permutation_vs_cons_inv H) as (l1 & l2 & ->).
  apply Permutation_sym, Permutation_cons_app_inv,
    Permutation_length_2_inv in H.
  destruct l1 as [|x [|y [|z l1]]]; cbn in H |- *;
    destruct H as [H|H]; inversion H; subst; auto 10.
Qed.

Lemma runs_app_boundary (p q : string) :
  p <> "" -> ends_with_digit p = false -> starts_with_kind true q = true ->
  runs (p ++ q) = runs p ++ runs q.
Proof.
  intros Hne Hend Hq. induction p as [|c p IH]; [congruence|].
  destruct p as [|c' p].
  - cbn in Hend. cbn [append]. destruct q as [|c2 q2]; [discriminate|].
    destruct (runs_cons_head c2 q2) as (t & rest & E).
    rewrite (runs_cons c (String c2 q2)), (runs_cons c ""), E. cbn in Hq.
    apply Bool.eqb_prop in Hq. cbn [runs app]. rewrite Hq, Hend. reflexivity.
  - specialize (IH ltac:(discriminate) Hend). cbn [append] in *.
    rewrite (runs_cons c (String c' (p ++ q))), IH.
    rewrite (runs_cons c (String c' p)).
    destruct (runs_cons_head c' p) as (t & rest & E). rewrite E.
    cbn [app]. destruct (Bool.eqb (is_digit c) (is_digit c')); reflexivity.
Qed.

Lemma natsort_key_after_prefix (p : string) :
  ends_with_digit p = false ->
  exists prefix_key,
    forall d s,
      all_kind true d = true -> d <> "" -> starts_with_kind true s = false ->
      natsort_key (p ++ d ++ s)
      = prefix_key ++ CNum (int_of_digits 0%N d) :: map chunk_of_run (runs s).
Proof.
  intros Hend. destruct p as [|c p].
  - exists [CStr ""]. intros d s Hd Hne Hs.
    apply (natsort_key_name_number "" d s); auto.
  - exists (natsort_key (String c p)). intros d s Hd Hne Hs.
    unfold natsort_key.
    rewrite runs_app_boundary; [|discriminate | exact Hend |].
    + rewrite (runs_app_run true d s) by assumption.
      destruct (runs_cons_head c p) as (t & rest & E). rewrite E.
      cbn [map app]. rewrite map_app. cbn [map].
      change (chunk_of_run (true, d)) with (CNum (int_of_digits 0 d)).
      destruct (chunk_of_run (is_digit c, t)); reflexivity.
    + destruct d as [|c' d]; [congruence|]. cbn in *.
      apply andb_prop in Hd. exact (proj1 Hd).
Qed.

Lemma key_compare_app_same (k a b : list chunk) :
  key_compare (k ++ a) (k ++ b) = key_compare a b.
Proof.
  induction k as [|x k IH]; [reflexivity|].
  cbn. now rewrite chunk_compare_refl.
Qed.

Lemma numeric_value_decides_after_prefix (p d1 s1 d2 s2 : string) :
  ends_with_digit p = false ->
  all_kind true d1 = true -> d1 <> "" -> starts_with_kind true s1 = false ->
  all_kind true d2 = true -> d2 <> "" -> starts_with_kind true s2 = false ->
  (int_of_digits 0 d1 < int_of_digits 0 d2)%N ->
  natural_leb (p ++ d1 ++ s1) (p ++ d2 ++ s2) = true /\
  natural_leb (p ++ d2 ++ s2) (p ++ d1 ++ s1) = false.
Proof.
  intros Hp H1 N1 S1 H2 N2 S2 Hlt. unfold natural_leb.
  destruct (natsort_key_after_prefix p Hp) as (k & Hk).
  rewrite (Hk d1 s1), (Hk d2 s2) by assumption.
  rewrite !key_compare_app_same. cbn.
  rewrite (proj2 (N.compare_lt_iff _ _) Hlt).
  rewrite (proj2 (N.compare_gt_iff _ _) Hlt). split; reflexivity.
Qed.

Lemma sorted_before (l1 l2 : list string) (x y : string) :
  StronglySorted natural_le (l1 ++ x :: l2) -> In y l1 -> natural_le y x.
Proof.
  induction l1 as [|z l1 IH]; intros Hs Hy; [destruct Hy|].
  cbn in Hs. inversion Hs as [|? ? Hs' Hz]; subst.
  destruct Hy as [->|Hy]; [|now apply IH].
  rewrite Forall_forall in Hz. apply Hz, in_or_app. right. now left.
Qed.

Lemma strictly_smaller_comes_first (l : list string) (x y : string) :
  StronglySorted natural_le l -> In x l -> In y l ->
  natural_leb y x = false ->
  exists l1 l2 l3, l = l1 ++ x :: l2 ++ y :: l3.
Proof.
  intros Hs Hx Hy Hlt.
  destruct (in_split x l Hx) as (l1 & l' & ->).
  assert (Hyl : In y l').
  { apply in_app_or in Hy. destruct Hy as [Hy|[Hy|Hy]]; [| |exact Hy].
    - apply (sorted_before l1 l' x y Hs) in Hy.
      unfold natural_le in Hy. congruence.
    - subst y. pose proof (natural_le_refl x) as Hr.
      unfold natural_le in Hr. congruence. }
  destruct (in_split y l' Hyl) as (l2 & l3 & ->).
  now exists l1, l2, l3.
Qed.

(** C3: the matched files are processed in natural-sort order (for names in
    ASCII, on which the sort is modelled).  The sorted list is a
    rearrangement of the matched files that is ordered by the natural order;
    in a run that gets to the loop, the loop reads the files in exactly that
    order and writes their frames in that order, and in every run what is
    read is an initial part of the first file followed by the sorted list
    and what is written is nothing or the decodable files in sorted order;
    two matched names that
    differ from some point on by a number, the point not being inside a
    number, are processed the smaller number first, whatever the numbers of
    digits; and [img1.png], [img2.png], [img10.png] come out as img1, img2,
    img10 however the folder lists them, although img10 is lexically before
    img2. *)
Theorem files_are_processed_in_natural_order
    (w : world) (image_folder output_video_path : string) (fps : Z)
    (img_pattern : string) (rotate : bool) :
  ascii_names (matched w image_folder img_pattern) ->
  let l := matched w image_folder img_pattern in
  let r := create_video_from_images w image_folder output_video_path fps
             img_pattern rotate in
  Permutation (natsorted l) l /\
  StronglySorted natural_le (natsorted l) /\
  (forall p0 rest a0,
     natsorted l = p0 :: rest -> decode w p0 = Some a0 ->
     fits_c_double fps = true ->
     files_read (trace r) = p0 :: natsorted l /\
     frames_written (trace r)
     = map (apply_rotate rotate) (decoded_images w (natsorted l))) /\
  (exists n,
     files_read (trace r)
     = firstn n (firstn 1 (natsorted l) ++ natsorted l)) /\
  (frames_written (trace r) = [] \/
   frames_written (trace r)
   = map (apply_rotate rotate) (decoded_images w (natsorted l))) /\
  (forall p d1 s1 d2 s2,
     In (p ++ d1 ++ s1)%string l -> In (p ++ d2 ++ s2)%string l ->
     ends_with_digit p = false ->
     all_kind true d1 = true -> d1 <> "" -> starts_with_kind true s1 = false ->
     all_kind true d2 = true -> d2 <> "" -> starts_with_kind true s2 = false ->
     (int_of_digits 0 d1 < int_of_digits 0 d2)%N ->
     natural_leb (p ++ d1 ++ s1) (p ++ d2 ++ s2) = true /\
     natural_leb (p ++ d2 ++ s2) (p ++ d1 ++ s1) = false /\
     exists l1 l2 l3,
       natsorted l
       = l1 ++ (p ++ d1 ++ s1)%string :: l2 ++ (p ++ d2 ++ s2)%string :: l3) /\
  (Permutation l ["frames/img1.png"; "frames/img2.png"; "frames/img10.png"] ->
   natsorted l = ["frames/img1.png"; "frames/img2.png"; "frames/img10.png"]) /\
  String.ltb "frames/img10.png" "frames/img2.png" = true.
Proof.
  intros _ l r.
  split; [apply natsorted_perm|]. split; [apply natsorted_sorted|].
  split.
  { intros p0 rest a0 Hs Hd Hf. split.
    - unfold r. rewrite Hs.
      now apply (files_read_complete w image_folder output_video_path fps
                   img_pattern rotate p0 rest a0).
    - unfold r. rewrite Hs.
      now apply (frames_written_complete w image_folder output_video_path
                   fps img_pattern rotate p0 rest a0). }
  split.
  { destruct (run_cases w image_folder output_video_path fps img_pattern
                rotate)
      as [[Hm Hr] | [(p0 & rest & Hs & Hd & Hr)
           | [(p0 & rest & a0 & Hs & Hd & Hf & Hr)
             | (p0 & rest & a0 & Hs & Hd & Hf & Hr)]]];
      fold r in Hr; fold l in Hm || fold l in Hs.
    - exists 0. rewrite Hr. reflexivity.
    - exists 1. rewrite Hr, Hs. reflexivity.
    - exists 1. rewrite Hr, Hs. reflexivity.
    - exists (S (S (List.length rest))). rewrite Hs. unfold r.
      rewrite (files_read_complete w image_folder output_video_path fps
                 img_pattern rotate p0 rest a0 Hs Hd Hf).
      cbn [firstn app]. now rewrite firstn_all. }
  split.
  { destruct (run_cases w image_folder output_video_path fps img_pattern
                rotate)
      as [[Hm Hr] | [(p0 & rest & Hs & Hd & Hr)
           | [(p0 & rest & a0 & Hs & Hd & Hf & Hr)
             | (p0 & rest & a0 & Hs & Hd & Hf & Hr)]]];
      fold r in Hr; try (left; rewrite Hr; reflexivity).
    right. fold l in Hs. rewrite Hs. unfold r.
    now apply (frames_written_complete w image_folder output_video_path
                 fps img_pattern rotate p0 rest a0). }
  split.
  { intros p d1 s1 d2 s2 Hx Hy Hp H1 N1 S1 H2 N2 S2 Hlt.
    destruct (numeric_value_decides_after_prefix p d1 s1 d2 s2)
      as [Hle Hgt]; try assumption.
    split; [exact Hle|]. split; [exact Hgt|].
    apply strictly_smaller_comes_first; [apply natsorted_sorted | | | exact Hgt].
    - now apply (Permutation_in _ (Permutation_sym (natsorted_perm l))).
    - now apply (Permutation_in _ (Permutation_sym (natsorted_perm l))). }
  split; [|reflexivity].
  intros H. apply permutation_of_three in H.
  destruct H as [H|[H|[H|[H|[H|H]]]]]; rewrite H; reflexivity.
Qed.

(** A folder listed in lexical order (img1, img10, img2) is read and written
    in the order img1, img2, img10. *)
Lemma files_are_processed_in_natural_order_witness :
  ascii_names (matched numbered_pictures "frames" "*.png") /\
  matched numbered_pictures "frames" "*.png"
  = ["frames/img1.png"; "frames/img10.png"; "frames/img2.png"] /\
  files_read
    (trace (create_video_from_images numbered_pictures "frames" "out.mp4" 30
              "*.png" false))
  = ["frames/img1.png";
     "frames/img1.png"; "frames/img2.png"; "frames/img10.png"] /\
  frames_written
    (trace (create_video_from_images numbered_pictures "frames" "out.mp4" 30
              "*.png" false))
  = [picture_100x50; picture_100x50; picture_64x48] /\
  natural_leb "frames/img2.png" "frames/img10.png" = true.
Proof.
  assert (Ha : ascii_names (matched numbered_pictures "frames" "*.png"))
    by (repeat constructor).
  split; [exact Ha|]. split; [reflexivity|].
  destruct (files_are_processed_in_natural_order numbered_pictures "frames"
              "out.mp4" 30 "*.png" false Ha)
    as (_ & _ & Hrun & _ & _ & Hnum & _ & _).
  destruct (Hrun "frames/img1.png" ["frames/img2.png"; "frames/img10.png"]
              picture_100x50 eq_refl eq_refl eq_refl) as [Hread Hwritten].
  split; [rewrite Hread; reflexivity|].
  split; [rewrite Hwritten; reflexivity|].
  apply (Hnum "frames/img" "2" ".png" "10" ".png");
    try reflexivity; try discriminate; cbn; auto.
Defined.

(** ** Rotation *)




(** ** The default pattern *)

(** C5, as stated, fails: a call without a pattern globs for [*.png], not for
    [*], and so differs from the call with the pattern [*]. *)
Lemma default_pattern_is_not_star :
  trace (call_create_video_from_images empty_folder "frames" "out.mp4"
           None None None)
  = [GlobGlob "frames/*.png"; Print (NoImagesFound "frames" "*.png")] /\
  trace (call_create_video_from_images empty_folder "frames" "out.mp4"
           None (Some "*") None)
  = [GlobGlob "frames/*"; Print (NoImagesFound "frames" "*")] /\
  call_create_video_from_images empty_folder "frames" "out.mp4"
    None None None
  <> call_create_video_from_images empty_folder "frames" "out.mp4"
       None (Some "*") None.
Proof.
  split; [reflexivity|]. split; [reflexivity|]. cbn. discriminate.
Qed.

(** C5, amended: a call without a pattern behaves as a call with the pattern
    [*.png]: the contract is convert(source_folder, destination_path,
    frame_rate=30, pattern="*.png", rotate=true), and the first thing such a
    call does is glob for [*.png] in the folder.  The command line has the
    same defaults. *)
Theorem default_pattern_is_png
    (w : world) (image_folder output_video_path : string)
    (fps : option Z) (rotate : option bool) :
  call_create_video_from_images w image_folder output_video_path
    fps None rotate
  = call_create_video_from_images w image_folder output_video_path
      fps (Some "*.png") rotate /\
  call_create_video_from_images w image_folder output_video_path
    None None None
  = create_video_from_images w image_folder output_video_path 30 "*.png"
      true /\
  hd_error
    (trace (call_create_video_from_images w image_folder output_video_path
              fps None rotate))
  = Some (GlobGlob (os_path_join image_folder "*.png")) /\
  main w {| arg_input := image_folder; arg_output := output_video_path;
            arg_fps := None; arg_pattern := None; arg_no_rotate := false |}
  = create_video_from_images w image_folder output_video_path 30 "*.png"
      true.
Proof.
  split; [reflexivity|]. split; [reflexivity|]. split; [|reflexivity].
  unfold call_create_video_from_images, default_img_pattern.
  destruct (run_cases w image_folder output_video_path
              (match fps with Some f => f | None => default_fps end)
              "*.png"
              (match rotate with Some r => r | None => default_rotate end))
    as [[_ Hr] | [(p0 & rest & _ & _ & Hr)
         | [(p0 & rest & a0 & _ & _ & _ & Hr)
           | (p0 & rest & a0 & _ & _ & _ & Hr)]]];
    rewrite Hr; reflexivity.
Qed.

(** ** The first image and the dimensions of the stream *)

(** C6: let [p0] be the first matched file in natural-sort order (names in
    ASCII).  When it decodes, reading its shape does not fault: the run does
    not end with [AttributeError]; with a rate the writer accepts the run
    returns normally and the one writer it creates has the width and height
    of that image after the optional rotation (the height and width of the
    file when rotation is on), and with a rate it does not accept it is the
    writer's constructor that raises, [cv2.error].  When it does not decode, the run stops
    at the dimension extraction, with [AttributeError] from [.shape] whether
    rotation is on or off ([cv2.rotate] hands [None] on), with no writer
    created and no frame written. *)
Theorem first_image_fixes_the_writer_dimensions
    (w : world) (image_folder output_video_path : string) (fps : Z)
    (img_pattern : string) (rotate : bool)
    (p0 : string) (rest : list string) :
  ascii_names (matched w image_folder img_pattern) ->
  natsorted (matched w image_folder img_pattern) = p0 :: rest ->
  let r := create_video_from_images w image_folder output_video_path fps
             img_pattern rotate in
  (forall a0, decode w p0 = Some a0 ->
     outcome r <> inl AttributeError /\
     (fits_c_double fps = true ->
      outcome r = inr tt /\
      writers_created (trace r)
      = [(output_video_path, mp4v, fps,
          width (apply_rotate rotate a0), height (apply_rotate rotate a0))] /\
      (width (apply_rotate rotate a0), height (apply_rotate rotate a0))
      = (if rotate then (height a0, width a0) else (width a0, height a0))) /\
     (fits_c_double fps = false ->
      r = ([GlobGlob (os_path_join image_folder img_pattern); Imread p0],
           inl Cv2Error))) /\
  (decode w p0 = None ->
     r = ([GlobGlob (os_path_join image_folder img_pattern); Imread p0],
          inl AttributeError) /\
     writers_created (trace r) = [] /\
     frames_written (trace r) = []).
Proof.
  intros _ Hs r. split.
  - intros a0 Hd. split; [|split].
    + unfold r. destruct (fits_c_double fps) eqn:Hf.
      * rewrite (run_complete w image_folder output_video_path fps
                   img_pattern rotate p0 rest a0 Hs Hd Hf). discriminate.
      * rewrite (run_rate_rejected w image_folder output_video_path fps
                   img_pattern rotate p0 rest a0 Hs Hd Hf). discriminate.
    + intros Hf. split.
      * unfold r.
        now rewrite (run_complete w image_folder output_video_path fps
                       img_pattern rotate p0 rest a0 Hs Hd Hf).
      * split.
        -- now apply (writers_created_complete w image_folder
                        output_video_path fps img_pattern rotate p0 rest a0).
        -- destruct rotate; reflexivity.
    + intros Hf. unfold r.
      exact (run_rate_rejected w image_folder output_video_path fps
               img_pattern rotate p0 rest a0 Hs Hd Hf).
  - intros Hd. unfold r.
    rewrite (run_first_undecodable w image_folder output_video_path fps
               img_pattern rotate p0 rest Hs Hd).
    repeat split.
Qed.

(** Two 100 x 50 pictures with rotation on: the writer is 50 x 100; and a
    corrupt first file: [AttributeError] with rotation on as with rotation
    off, nothing written. *)
Lemma first_image_fixes_the_writer_dimensions_witness :
  ascii_names (matched two_pictures "frames" "*.png") /\
  natsorted (matched two_pictures "frames" "*.png")
  = "frames/a1.png" :: ["frames/a2.png"] /\
  writers_created
    (trace (create_video_from_images two_pictures "frames" "out.mp4" 10
              "*.png" true))
  = [("out.mp4", 1983148141%Z, 10%Z, 50, 100)] /\
  ascii_names (matched first_corrupt "frames" "*.png") /\
  natsorted (matched first_corrupt "frames" "*.png")
  = "frames/a1.png" :: ["frames/a2.png"] /\
  outcome (create_video_from_images first_corrupt "frames" "out.mp4" 10
             "*.png" true) = inl AttributeError /\
  outcome (create_video_from_images first_corrupt "frames" "out.mp4" 10
             "*.png" false) = inl AttributeError.
Proof.
  assert (Ha : ascii_names (matched two_pictures "frames" "*.png"))
    by (repeat constructor).
  assert (Hb : ascii_names (matched first_corrupt "frames" "*.png"))
    by (repeat constructor).
  split; [exact Ha|]. split; [reflexivity|].
  destruct (first_image_fixes_the_writer_dimensions two_pictures "frames"
              "out.mp4" 10 "*.png" true "frames/a1.png" ["frames/a2.png"]
              Ha eq_refl) as [Hok _].
  destruct (Hok picture_100x50 eq_refl) as (_ & Hrate & _).
  destruct (Hrate eq_refl) as (_ & Hw & _).
  split; [rewrite Hw; reflexivity|].
  split; [exact Hb|]. split; [reflexivity|].
  destruct (first_image_fixes_the_writer_dimensions first_corrupt "frames"
              "out.mp4" 10 "*.png" true "frames/a1.png" ["frames/a2.png"]
              Hb eq_refl) as [_ Hon].
  destruct (first_image_fixes_the_writer_dimensions first_corrupt "frames"
              "out.mp4" 10 "*.png" false "frames/a1.png" ["frames/a2.png"]
              Hb eq_refl) as [_ Hoff].
  destruct (Hon eq_refl) as (Eon & _). destruct (Hoff eq_refl) as (Eoff & _).
  split; [rewrite Eon | rewrite Eoff]; reflexivity.
Defined.

(** ** Dimensions of the frames in the stream *)




(** ** Runs that read the same *)


(** ** Finalization *)




(** ** Progress messages *)







(** ** The writer is used as a writer must be *)




(** ** What a run reads *)

Lemma glob_calls_iterations (w : world) (rotate : bool) (total k : nat)
    (l : list string) :
  glob_calls
    (flat_map (iteration_events w rotate total)
       (combine (seq k (List.length l)) l)) = [].
Proof.
  revert k. induction l as [|p l IH]; intros k; [reflexivity|].
  cbn [List.length seq combine flat_map]. unfold glob_calls in *.
  rewrite flat_map_app, IH. unfold iteration_events. cbn [fst snd].
  destruct (decode w p) as [a|]; cbn; [|reflexivity].
  destruct (progress_due total (k + 1)); reflexivity.
Qed.

(** X2: every run starts with its one call of [glob.glob], on
    [os.path.join(image_folder, img_pattern)], and never reads a file that
    this call did not list; it reads at most one file more than were listed
    (the first one is read twice). *)
Theorem only_matched_files_are_read
    (w : world) (image_folder output_video_path : string) (fps : Z)
    (img_pattern : string) (rotate : bool) :
  let r := create_video_from_images w image_folder output_video_path fps
             img_pattern rotate in
  hd_error (trace r) = Some (GlobGlob (os_path_join image_folder img_pattern)) /\
  glob_calls (trace r) = [os_path_join image_folder img_pattern] /\
  (forall p, In p (files_read (trace r)) ->
             In p (matched w image_folder img_pattern)) /\
  List.length (files_read (trace r))
  <= S (List.length (matched w image_folder img_pattern)).
Proof.
  intros r.
  pose proof (natsorted_perm (matched w image_folder img_pattern)) as Hperm.
  destruct (run_cases w image_folder output_video_path fps img_pattern rotate)
    as [[Hm Hr] | [(p0 & rest & Hs & Hd & Hr)
         | [(p0 & rest & a0 & Hs & Hd & Hf & Hr)
           | (p0 & rest & a0 & Hs & Hd & Hf & Hr)]]];
    fold r in Hr.
  - rewrite Hr. cbn. repeat split; [intros p []|lia].
  - rewrite Hr. cbn. repeat split; [|lia].
    intros p [<-|[]]. apply (Permutation_in _ Hperm). rewrite Hs. now left.
  - rewrite Hr. cbn. repeat split; [|lia].
    intros p [<-|[]]. apply (Permutation_in _ Hperm). rewrite Hs. now left.
  - split; [now rewrite Hr|]. split.
    { rewrite Hr. unfold trace. cbn [fst glob_calls flat_map app].
      change (flat_map _ ?t) with (glob_calls t). unfold glob_calls at 1.
      rewrite flat_map_app. fold (glob_calls
        (flat_map (iteration_events w rotate (List.length (p0 :: rest)))
           (enumerate (p0 :: rest)))).
      unfold enumerate. rewrite glob_calls_iterations. reflexivity. }
    unfold r.
    rewrite (files_read_complete w image_folder output_video_path fps
               img_pattern rotate p0 rest a0 Hs Hd Hf).
    split.
    + intros p Hin. apply (Permutation_in _ Hperm). rewrite Hs.
      destruct Hin as [<-|Hin]; [now left | exact Hin].
    + rewrite <- (Permutation_length Hperm), Hs. cbn. lia.
Qed.

(** ** The order of the listing *)







(** ** Names with the same key *)







(** ** How many progress messages *)

Lemma filter_on_positions {A : Type} (g : nat -> bool) (l : list A) (k : nat) :
  List.length (filter (fun it => g (fst it)) (combine (seq k (List.length l)) l))
  = List.length (filter g (seq k (List.length l))).
Proof.
  revert k. induction l as [|x l IH]; intros k; [reflexivity|].
  cbn [List.length seq combine filter fst].
  destruct (g k); cbn [List.length]; now rewrite IH.
Qed.

Lemma filter_length_le_of_imp {A : Type} (f g : A -> bool) (l : list A) :
  (forall x, f x = true -> g x = true) ->
  List.length (filter f l) <= List.length (filter g l).
Proof.
  intros H. induction l as [|x l IH]; cbn; [lia|].
  destruct (f x) eqn:Ef.
  - rewrite (H x Ef). cbn. lia.
  - destruct (g x); cbn; lia.
Qed.

Lemma multiples_of_ten_up_to (n : nat) :
  List.length (filter (fun i => ((i + 1) mod 10 =? 0)%nat) (seq 0 n)) = n / 10.
Proof.
  induction n as [|n IH]; [reflexivity|].
  rewrite seq_S, filter_app, length_app, IH. cbn [filter plus].
  pose proof (Nat.div_mod_eq n 10) as E1.
  pose proof (Nat.div_mod_eq (S n) 10) as E2.
  pose proof (Nat.mod_upper_bound n 10 ltac:(discriminate)) as B1.
  pose proof (Nat.mod_upper_bound (S n) 10 ltac:(discriminate)) as B2.
  replace (n + 1) with (S n) by lia.
  destruct (S n mod 10 =? 0)%nat eqn:Em.
  - apply Nat.eqb_eq in Em. cbn [List.length]. lia.
  - apply Nat.eqb_neq in Em. cbn [List.length]. lia.
Qed.

Lemma progress_positions_count (n : nat) :
  List.length (filter (fun i => progress_due n (i + 1)) (seq 0 n))
  = (n + 9) / 10.
Proof.
  destruct n as [|m]; [reflexivity|].
  replace ((S m + 9) / 10) with (m / 10 + 1)
    by (replace (S m + 9) with (m + 1 * 10) by lia;
        now rewrite Nat.div_add by discriminate).
  rewrite seq_S, filter_app, length_app. cbn [plus filter].
  replace (progress_due (S m) (m + 1)) with true
    by (unfold progress_due; replace (m + 1) with (S m) by lia;
        now rewrite Nat.eqb_refl, orb_true_r).
  rewrite (filter_ext_in (fun i => progress_due (S m) (i + 1))
             (fun i => ((i + 1) mod 10 =? 0)%nat)).
  - rewrite multiples_of_ten_up_to. reflexivity.
  - intros i Hi. apply in_seq in Hi. unfold progress_due.
    replace (i + 1 =? S m)%nat with false; [apply orb_false_r|].
    symmetry. apply Nat.eqb_neq. lia.
Qed.

(** X6: in a run that gets to the loop (the first sorted file decodes and the
    writer accepts the rate), at most one progress message is
    printed per ten matched files, rounded up; when every matched file
    decodes, exactly that many are printed (a last position that is a
    multiple of ten is reported once, not twice). *)
Theorem number_of_progress_messages
    (w : world) (image_folder output_video_path : string) (fps : Z)
    (img_pattern : string) (rotate : bool)
    (p0 : string) (rest : list string) (a0 : image) :
  natsorted (matched w image_folder img_pattern) = p0 :: rest ->
  decode w p0 = Some a0 ->
  fits_c_double fps = true ->
  let r := create_video_from_images w image_folder output_video_path fps
             img_pattern rotate in
  let total := List.length (matched w image_folder img_pattern) in
  List.length (filter is_progress (messages (trace r))) <= (total + 9) / 10 /\
  ((forall p, In p (matched w image_folder img_pattern) ->
              decode w p <> None) ->
   List.length (filter is_progress (messages (trace r))) = (total + 9) / 10).
Proof.
  intros Hs Hd Hf r total.
  assert (Ht : List.length (p0 :: rest) = total).
  { unfold total. rewrite <- Hs. apply natsorted_length. }
  assert (Hp := progress_complete w image_folder output_video_path fps
                  img_pattern rotate p0 rest a0 Hs Hd Hf).
  fold r in Hp. rewrite Ht in Hp. rewrite Hp, length_map.
  assert (Hall : List.length
                   (filter (fun it => progress_due total (fst it + 1))
                      (enumerate (p0 :: rest))) = (total + 9) / 10).
  { unfold enumerate.
    rewrite (filter_on_positions (fun i => progress_due total (i + 1))).
    rewrite Ht. apply progress_positions_count. }
  split.
  - rewrite <- Hall. apply filter_length_le_of_imp.
    intros it. destruct (decode w (snd it)); [auto | discriminate].
  - intros Hdec. rewrite <- Hall. f_equal. apply filter_ext_in.
    intros [i p] Hin. cbn [fst snd].
    assert (In p (matched w image_folder img_pattern)).
    { apply (Permutation_in _ (natsorted_perm _)). rewrite Hs.
      unfold enumerate in Hin. now apply in_combine_r in Hin. }
    destruct (decode w p) eqn:E; [reflexivity|]. now apply Hdec in E.
Qed.

(** Twelve decodable pictures: two progress messages, 10/12 and 12/12. *)
Lemma number_of_progress_messages_witness :
  natsorted (matched twelve_pictures "frames" "*.png")
  = "frames/f1.png" ::
    ["frames/f2.png"; "frames/f3.png"; "frames/f4.png"; "frames/f5.png";
     "frames/f6.png"; "frames/f7.png"; "frames/f8.png"; "frames/f9.png";
     "frames/f10.png"; "frames/f11.png"; "frames/f12.png"] /\
  List.length
    (filter is_progress
       (messages
          (trace (create_video_from_images twelve_pictures "frames" "out.mp4"
                    30 "*.png" true)))) = 2.
Proof.
  split; [reflexivity|].
  destruct (number_of_progress_messages twelve_pictures "frames" "out.mp4" 30
              "*.png" true "frames/f1.png"
              ["frames/f2.png"; "frames/f3.png"; "frames/f4.png";
               "frames/f5.png"; "frames/f6.png"; "frames/f7.png";
               "frames/f8.png"; "frames/f9.png"; "frames/f10.png";
               "frames/f11.png"; "frames/f12.png"] picture_100x50
              eq_refl eq_refl eq_refl) as [_ H].
  rewrite H; [reflexivity|].
  intros p Hin. cbn in Hin.
  repeat (destruct Hin as [<-|Hin]; [discriminate|]). destruct Hin.
Defined.

(** ** The folder argument *)

Lemma endswith_sep_app_sep (f : string) : endswith_sep (f ++ "/") = true.
Proof.
  induction f as [|c f IH]; [reflexivity|].
  cbn [append]. destruct f as [|c' f]; [reflexivity|]. exact IH.
Qed.

Lemma app_sep_not_empty (f : string) : String.eqb (f ++ "/") "" = false.
Proof. destruct f; reflexivity. Qed.

(** X7: the folder is used only to build the glob pattern (and in the text of the
    "no images found" message): an absolute pattern replaces the folder
    altogether, a slash at the end of the folder makes no difference, and two
    folders that give the same pattern give the same run whenever a file
    matches. *)
Theorem folder_only_builds_the_glob_pattern
    (w : world) (folder1 folder2 output_video_path : string) (fps : Z)
    (img_pattern : string) (rotate : bool) :
  (startswith_sep img_pattern = true ->
   os_path_join folder1 img_pattern = img_pattern) /\
  (folder1 <> "" -> endswith_sep folder1 = false ->
   os_path_join (folder1 ++ "/") img_pattern
   = os_path_join folder1 img_pattern) /\
  (os_path_join folder1 img_pattern = os_path_join folder2 img_pattern ->
   matched w folder1 img_pattern <> [] ->
   create_video_from_images w folder1 output_video_path fps img_pattern rotate
   = create_video_from_images w folder2 output_video_path fps img_pattern
       rotate).
Proof.
  split; [|split].
  - intros H. unfold os_path_join. now rewrite H.
  - intros Hne Hend. unfold os_path_join.
    destruct (startswith_sep img_pattern); [reflexivity|].
    rewrite endswith_sep_app_sep, app_sep_not_empty, Hend. cbn [orb].
    destruct (String.eqb_spec folder1 ""); [contradiction|]. cbn [orb].
    clear. induction folder1 as [|c f IH]; [reflexivity|].
    cbn [append]. now rewrite IH.
  - intros E Hm. unfold matched in Hm.
    unfold create_video_from_images, glob_glob. rewrite <- E. cbn.
    destruct (glob_result w (os_path_join folder1 img_pattern));
      [contradiction | reflexivity].
Qed.

(** [frames/] and [frames] give the same run. *)
Lemma folder_only_builds_the_glob_pattern_witness :
  matched two_pictures "frames/" "*.png" <> [] /\
  create_video_from_images two_pictures "frames/" "out.mp4" 30 "*.png" true
  = create_video_from_images two_pictures "frames" "out.mp4" 30 "*.png" true.
Proof.
  split; [discriminate|].
  destruct (folder_only_builds_the_glob_pattern two_pictures "frames/"
              "frames" "out.mp4" 30 "*.png" true) as (_ & _ & H).
  apply H; [reflexivity | discriminate].
Defined.

(** ** The command line *)



(** ** What the output path and the frame rate change *)




(** ** What the rotation switch changes *)

Lemma turned_iterations (w : world) (total : nat) (l : list (nat * string)) :
  flat_map (iteration_events w true total) l
  = map turned (flat_map (iteration_events w false total) l).
Proof.
  induction l as [|it l IH]; [reflexivity|].
  cbn [flat_map]. rewrite map_app, IH. f_equal.
  unfold iteration_events. destruct (decode w (snd it)); [|reflexivity].
  cbn. destruct (progress_due total (fst it + 1)); reflexivity.
Qed.

Lemma files_read_turned (t : list event) :
  files_read (map turned t) = files_read t.
Proof.
  induction t as [|e t IH]; [reflexivity|].
  cbn [map]. unfold files_read in *. cbn [flat_map]. rewrite IH.
  destruct e; reflexivity.
Qed.

Lemma messages_turned (t : list event) :
  messages (map turned t) = messages t.
Proof.
  induction t as [|e t IH]; [reflexivity|].
  cbn [map]. unfold messages in *. cbn [flat_map]. rewrite IH.
  destruct e; reflexivity.
Qed.

Lemma frames_written_turned (t : list event) :
  frames_written (map turned t)
  = map rotate_90_counterclockwise (frames_written t).
Proof.
  induction t as [|e t IH]; [reflexivity|].
  cbn [map]. unfold frames_written in *. cbn [flat_map].
  rewrite map_app, IH. destruct e; reflexivity.
Qed.

(** X10: turning the rotation on changes a run only by turning every frame
    written and exchanging the width and height of the writer: the same
    files are read, the same messages printed, the same number of frames
    written, and the run ends normally with rotation exactly when it does
    without. *)
Theorem rotation_only_turns_the_frames
    (w : world) (image_folder output_video_path : string) (fps : Z)
    (img_pattern : string) :
  let on := create_video_from_images w image_folder output_video_path fps
              img_pattern true in
  let off := create_video_from_images w image_folder output_video_path fps
               img_pattern false in
  trace on = map turned (trace off) /\
  files_read (trace on) = files_read (trace off) /\
  messages (trace on) = messages (trace off) /\
  frames_written (trace on)
  = map rotate_90_counterclockwise (frames_written (trace off)) /\
  (outcome on = inr tt <-> outcome off = inr tt).
Proof.
  intros on off.
  assert (E : trace on = map turned (trace off)
              /\ (outcome on = inr tt <-> outcome off = inr tt)).
  { unfold on, off.
    destruct (run_cases w image_folder output_video_path fps img_pattern
                false)
      as [[Hm Hr] | [(p0 & rest & Hs & Hd & Hr)
           | [(p0 & rest & a0 & Hs & Hd & Hf & Hr)
             | (p0 & rest & a0 & Hs & Hd & Hf & Hr)]]];
      rewrite Hr.
    - unfold matched in Hm.
      rewrite (run_no_match w image_folder output_video_path fps img_pattern
                 true Hm). split; reflexivity.
    - rewrite (run_first_undecodable w image_folder output_video_path fps
                 img_pattern true p0 rest Hs Hd).
      split; [reflexivity|]. cbn. split; discriminate.
    - rewrite (run_rate_rejected w image_folder output_video_path fps
                 img_pattern true p0 rest a0 Hs Hd Hf).
      split; [reflexivity|]. cbn. split; discriminate.
    - rewrite (run_complete w image_folder output_video_path fps img_pattern
                 true p0 rest a0 Hs Hd Hf).
      unfold trace, outcome. cbn [fst snd]. split; [|tauto].
      cbn [map turned]. rewrite map_app, turned_iterations. reflexivity. }
  destruct E as [E Ho]. split; [exact E|].
  rewrite E, files_read_turned, messages_turned, frames_written_turned.
  repeat split; apply Ho.
Qed.

(** ** The quarter turn *)

(** X11: the rotation puts every pixel of the source at the place a quarter turn
    counterclockwise takes it to, inside the rotated frame (row [r], column
    [c] goes to row [width - 1 - c], column [r]), and four rotations give
    back a frame of the same size with every pixel at its place. *)
Theorem rotation_is_a_quarter_turn (src : image) (r c k : nat) :
  r < height src -> c < width src ->
  let turned_once := rotate_90_counterclockwise src in
  let turned_four_times :=
    rotate_90_counterclockwise
      (rotate_90_counterclockwise
         (rotate_90_counterclockwise (rotate_90_counterclockwise src))) in
  width src - 1 - c < height turned_once /\
  r < width turned_once /\
  pix turned_once (width src - 1 - c) r k = pix src r c k /\
  height turned_four_times = height src /\
  width turned_four_times = width src /\
  pix turned_four_times r c k = pix src r c k.
Proof.
  intros Hr Hc. cbn. repeat split; try lia.
  - f_equal. lia.
  - f_equal; lia.
Qed.

(** The top right pixel of a 100 x 50 picture becomes the top left pixel. *)
Lemma rotation_is_a_quarter_turn_witness :
  pix (rotate_90_counterclockwise picture_100x50) 0 0 2
  = pix picture_100x50 0 99 2.
Proof.
  destruct (rotation_is_a_quarter_turn picture_100x50 0 99 2)
    as (_ & _ & H & _); [cbn; lia | cbn; lia | exact H].
Defined.

(** ** Sorting cannot fail *)

(** X12: sorting the matched names never fails and always orders them: the
    keys of any two names have components of the same kind at every
    position they share, so Python's comparison of the keys never meets a
    string and a number (no [TypeError]); any two names are comparable, and
    the order is transitive. *)
Theorem sorting_never_compares_a_string_with_a_number (x y z : string) :
  tuple_compare (natsort_key x) (natsort_key y)
  = Some (key_compare (natsort_key x) (natsort_key y)) /\
  (natural_le x y \/ natural_le y x) /\
  (natural_le x y -> natural_le y z -> natural_le x z).
Proof.
  split; [apply natsorted_never_raises|].
  split; [apply natural_leb_total | apply natural_le_trans].
Qed.
